(** * remove_duplicates.py: the normalisation-and-grouping engine

    A shallow embedding of [get_value_hash_function], [track_row],
    [remove_duplicates] and [main] of [src/remove_duplicates.py], and the
    properties of the deduplication they implement.

    Conventions.
    - A Python [str] is a [string]; a character is a code point below 256
      (the Latin-1 repertoire), on which [str.lower] is a per-character map.
    - A row yielded by [csv.DictReader] and a method descriptor of the
      specification are [Dict[str, str]] objects that are only tested for
      membership and subscripted: finite maps [gmap string string].  A
      record shorter or longer than the header, which [csv.DictReader]
      pads with [None] or collects under the key [None], is not a
      [Dict[str, str]]; rows with such fields have functions of their own,
      see "Records of uneven length".
    - The specification and the table of tracked rows are Python dicts whose
      iteration order is observed ([for column_key in criteria],
      [tracked_rows.values()]): insertion-ordered association lists, see
      [Dict].
    - A raised exception is the [Err] branch of [result]; [print] and the
      file written by [main] are recorded in an explicit [world]. *)

From Stdlib Require Import ZArith Ascii String.
From stdpp Require Import base strings list gmap pretty relations.

Open Scope Z_scope.

(** ** Exceptions and fallible computations *)

Inductive exception : Type :=
  | KeyError (msg : string)
  | ValueError (msg : string)
  | IndexError (msg : string).

Inductive result (A : Type) : Type :=
  | Ok (a : A)
  | Err (e : exception).
Arguments Ok {A} a.
Arguments Err {A} e.

#[global] Instance exception_eq_dec : EqDecision exception.
Proof. solve_decision. Defined.

#[global] Instance result_ret : MRet result := λ A a, Ok a.
#[global] Instance result_bind : MBind result := λ A B f m,
  match m with
  | Ok a => f a
  | Err e => Err e
  end.
#[global] Instance result_fmap : FMap result := λ A B f m,
  match m with
  | Ok a => Ok (f a)
  | Err e => Err e
  end.

#[global] Instance result_eq_dec {A} `{EqDecision A} : EqDecision (result A).
Proof. solve_decision. Defined.

Definition is_Ok {A} (m : result A) : Prop := ∃ a, m = Ok a.

(** ** Python's built-in string operations used by the program *)

Module Str.

Definition code (c : ascii) : N := N_of_ascii c.

Definition between (lo hi n : N) : bool := ((lo <=? n) && (n <=? hi))%N.

(** The cased code points below 256 whose lowercase differs: [A-Z], and
    the Latin-1 capitals U+00C0..U+00DE without the multiplication sign
    U+00D7.  Each one lowers to the code point 32 above it. *)
Definition is_upper (c : ascii) : bool :=
  between 65 90 (code c)
  || (between 192 222 (code c) && negb (code c =? 215)%N).

Definition lower_char (c : ascii) : ascii :=
  if is_upper c then ascii_of_N (code c + 32) else c.

(** [x.lower()] *)
Fixpoint lower (x : string) : string :=
  match x with
  | EmptyString => EmptyString
  | String c x' => String (lower_char c) (lower x')
  end.

(** The character class [a-z0-9]. *)
Definition in_a_z_0_9 (c : ascii) : bool :=
  between 97 122 (code c) || between 48 57 (code c).

(** [re.sub("[^a-z0-9]+", repl, x)]: scanning left to right, every
    maximal non-empty run of characters outside [a-z0-9] is replaced by
    one copy of [repl]; [in_run] tells that the previous character
    belonged to such a run. *)
Fixpoint re_sub_runs (repl : string) (in_run : bool) (x : string) : string :=
  match x with
  | EmptyString => EmptyString
  | String c x' =>
      if in_a_z_0_9 c then String c (re_sub_runs repl false x')
      else if in_run then re_sub_runs repl true x'
      else repl +:+ re_sub_runs repl true x'
  end.

Definition re_sub_not_a_z_0_9 (repl x : string) : string :=
  re_sub_runs repl false x.

(** Keeping the characters that satisfy a predicate. *)
Fixpoint keep (p : ascii → bool) (x : string) : string :=
  match x with
  | EmptyString => EmptyString
  | String c x' => if p c then String c (keep p x') else keep p x'
  end.

End Str.

(** ** Insertion-ordered dictionaries

    A Python [dict] keeps its keys in the order of their first insertion;
    assigning to a key that is present replaces the value in place. *)

Module Dict.
Abbreviation t V := (list (string * V)).

Section dict.
Context {V : Type}.
Implicit Types d : t V.

(** [{}] *)
Definition empty : t V := [].

(** [d.get(k)] as an option; [d[k]] raises when it is [None]. *)
Fixpoint get d (k : string) : option V :=
  match d with
  | [] => None
  | (k', v) :: d' => if decide (k' = k) then Some v else get d' k
  end.

(** [d[k] = v] *)
Fixpoint set d (k : string) (v : V) : t V :=
  match d with
  | [] => [(k, v)]
  | (k', v') :: d' =>
      if decide (k' = k) then (k', v) :: d' else (k', v') :: set d' k v
  end.

(** [d.keys()], [d.values()], [len(d)] *)
Definition keys d : list string := d.*1.
Definition values d : list V := d.*2.
Definition len d : Z := Z.of_nat (List.length d).

(** [d[k]] *)
Definition getitem d (k : string) : result V :=
  match get d k with
  | Some v => Ok v
  | None => Err (KeyError k)
  end.

End dict.
End Dict.

(** ** The program *)

Definition ATTRIBUTE_METHOD : string := "method".

Definition METHOD_EXACT : string := "exact".
Definition METHOD_EXACT_CASE_INSENSITIVE : string := "exact_case_insensitive".
Definition METHOD_EXACT_LOWERCASE_ALPHANUMERIC : string := "exact_lower_alphanumeric".

(** The method names that [get_value_hash_function] tests for, in order. *)
Definition recognised_methods : list string :=
  [METHOD_EXACT; METHOD_EXACT_CASE_INSENSITIVE; METHOD_EXACT_LOWERCASE_ALPHANUMERIC].

Definition OUTPUT_FILE_SUFFIX : string := "_duplicates_removed.csv".

(** A row of the data file, a method descriptor, the specification. *)
Abbreviation Row := (gmap string string).
Abbreviation Descriptor := (gmap string string).
Abbreviation Criteria := (Dict.t Descriptor).

(** The messages of the three [raise] statements. *)
Definition not_recognised_msg (method : string) : string :=
  "The value hash method '" +:+ method +:+ "' was not recognised".

Definition no_method_key_msg : string :=
  "The given method dictionary contains no '" +:+ ATTRIBUTE_METHOD +:+ "' key.".

Definition no_column_msg (column_key : string) : string :=
  "The given column key ('" +:+ column_key
  +:+ "') does not exist in the current row of data.".

(** The error classes of the specification, as the exceptions the code
    raises for them. *)
Definition MissingAttribute : exception := KeyError no_method_key_msg.
Definition UnrecognizedMethod (method : string) : exception :=
  ValueError (not_recognised_msg method).
Definition MissingColumn (column_key : string) : exception :=
  KeyError (no_column_msg column_key).

(** [get_value_hash_function] *)
Definition get_value_hash_function (method_and_params : Descriptor)
  : result (string → string) :=
  match method_and_params !! ATTRIBUTE_METHOD with
  | Some method =>
      if decide (method = METHOD_EXACT) then
        Ok (λ x, x)
      else if decide (method = METHOD_EXACT_CASE_INSENSITIVE) then
        Ok (λ x, Str.lower x)
      else if decide (method = METHOD_EXACT_LOWERCASE_ALPHANUMERIC) then
        Ok (λ x, Str.re_sub_not_a_z_0_9 "" (Str.lower x))
      else
        Err (ValueError (not_recognised_msg method))
  | None => Err (KeyError no_method_key_msg)
  end.

(** The [for i, column_key in enumerate(column_keys)] loop of [track_row],
    started at index [i] with the key built so far. *)
Fixpoint hash_columns (row : Row) (value_hash_functions : list (string → string))
    (i : nat) (column_keys : list string) (hashed_key : string) : result string :=
  match column_keys with
  | [] => Ok hashed_key
  | column_key :: column_keys' =>
      match row !! column_key with
      | Some value =>
          match value_hash_functions !! i with
          | Some vhf =>
              hash_columns row value_hash_functions (S i) column_keys'
                (hashed_key +:+ vhf value)
          | None => Err (IndexError "list index out of range")
          end
      | None => Err (KeyError (no_column_msg column_key))
      end
  end.

(** [track_row] *)
Definition track_row (row : Row) (column_keys : list string)
    (value_hash_functions : list (string → string))
    (unique_rows : Dict.t Row) : result (Dict.t Row) :=
  hashed_key ← hash_columns row value_hash_functions 0 column_keys "";
  mret (Dict.set unique_rows hashed_key row).

(** The list comprehension
    [[get_value_hash_function(criteria[column_key]) for column_key in criteria]]. *)
Definition value_hash_functions_of (criteria : Criteria)
  : result (list (string → string)) :=
  mapM (λ column_key,
          Dict.getitem criteria column_key ≫= get_value_hash_function)
       (Dict.keys criteria).

(** One iteration of the [for row in reader] loop of [remove_duplicates],
    on the pair of [tracked_rows] and [row_count]. *)
Definition loop_body (criteria : Criteria) (st : Dict.t Row * Z) (row : Row)
  : result (Dict.t Row * Z) :=
  let row_count := st.2 + 1 in
  vhfs ← value_hash_functions_of criteria;
  tracked_rows ← track_row row (Dict.keys criteria) vhfs st.1;
  mret (tracked_rows, row_count).

(** The whole loop, over the rows that the reader yields. *)
Fixpoint loop (criteria : Criteria) (st : Dict.t Row * Z) (reader : list Row)
  : result (Dict.t Row * Z) :=
  match reader with
  | [] => Ok st
  | row :: reader' => st' ← loop_body criteria st row; loop criteria st' reader'
  end.

(** What the program leaves behind: the lines printed, and the CSV files
    handed to [DataFrame.to_csv] (directory, file name, rows). *)
Record csv_file : Type := CsvFile {
  csv_directory : string;
  csv_name : string;
  csv_rows : list Row
}.

Record world : Type := World {
  stdout : list string;
  written : list csv_file
}.

Definition print (line : string) (w : world) : world :=
  {| stdout := stdout w ++ [line]; written := written w |}.

Definition to_csv (f : csv_file) (w : world) : world :=
  {| stdout := stdout w; written := written w ++ [f] |}.

(** The f-string printed once the loop is over. *)
Definition summary (tracked_rows : Dict.t Row) (row_count : Z) : string :=
  "Removed " +:+ pretty (row_count - Dict.len tracked_rows)
  +:+ " duplicate(s) from " +:+ pretty row_count +:+ " row(s).".

(** [remove_duplicates]; [source] is the sequence of rows that
    [csv.DictReader] yields for the data file. *)
Definition remove_duplicates (source : list Row) (criteria : Criteria)
    (w : world) : result (list Row) * world :=
  match loop criteria (Dict.empty, 0) source with
  | Ok (tracked_rows, row_count) =>
      (Ok (Dict.values tracked_rows), print (summary tracked_rows row_count) w)
  | Err e => (Err e, w)
  end.

(** [main]; [datafile_stem] is [datafile.stem], [datafile] the rows of the
    data file and [specfile] the dictionary that [json.load] returns. *)
Definition main (datafile_stem : string) (datafile : list Row)
    (specfile : Criteria) (outputdirectory : string)
    (w : world) : result unit * world :=
  let specification_dict := specfile in
  match remove_duplicates datafile specification_dict w with
  | (Ok results, w') =>
      (Ok (),
       to_csv (CsvFile outputdirectory (datafile_stem +:+ OUTPUT_FILE_SUFFIX) results) w')
  | (Err e, w') => (Err e, w')
  end.

(** ** The engine as a transition system

    The run of [remove_duplicates] on a data file, one transition per loop
    iteration: Idle, Processing, then Completed or Failed. *)

Inductive engine : Type :=
  | Idle (source : list Row)
  | Processing (reader : list Row) (tracked_rows : Dict.t Row) (row_count : Z)
  | Completed (tracked_rows : Dict.t Row) (row_count : Z)
  | Failed (e : exception).

Inductive step (criteria : Criteria) : engine → engine → Prop :=
  | step_open source :
      step criteria (Idle source) (Processing source Dict.empty 0)
  | step_row row reader tracked_rows row_count vhfs tracked_rows' :
      value_hash_functions_of criteria = Ok vhfs →
      track_row row (Dict.keys criteria) vhfs tracked_rows = Ok tracked_rows' →
      step criteria (Processing (row :: reader) tracked_rows row_count)
                    (Processing reader tracked_rows' (row_count + 1))
  | step_bad_method row reader tracked_rows row_count e :
      value_hash_functions_of criteria = Err e →
      step criteria (Processing (row :: reader) tracked_rows row_count) (Failed e)
  | step_bad_row row reader tracked_rows row_count vhfs e :
      value_hash_functions_of criteria = Ok vhfs →
      track_row row (Dict.keys criteria) vhfs tracked_rows = Err e →
      step criteria (Processing (row :: reader) tracked_rows row_count) (Failed e)
  | step_close tracked_rows row_count :
      step criteria (Processing [] tracked_rows row_count)
                    (Completed tracked_rows row_count).

Definition final (s : engine) : Prop :=
  match s with
  | Completed _ _ | Failed _ => True
  | _ => False
  end.

(** A run: from Idle on the data file to a state with no successor. *)
Definition runs_to (criteria : Criteria) (source : list Row) (s : engine) : Prop :=
  rtc (step criteria) (Idle source) s ∧ final s.

(** ** The composite key of a row

    What one loop iteration uses as the key of [tracked_rows]: the functions
    are resolved, then [track_row] builds [hashed_key]. *)
Definition composite_key (criteria : Criteria) (row : Row) : result string :=
  vhfs ← value_hash_functions_of criteria;
  hash_columns row vhfs 0 (Dict.keys criteria) "".

(** A row that has every column of the specification. *)
Definition complete (criteria : Criteria) (row : Row) : Prop :=
  Forall (λ c, is_Some (row !! c)) (Dict.keys criteria).

#[global] Instance complete_dec criteria row : Decision (complete criteria row).
Proof. unfold complete. apply _. Defined.

(** The state in which the run of the engine on a data file ends. *)
Definition outcome (criteria : Criteria) (source : list Row) : engine :=
  match loop criteria (Dict.empty, 0) source with
  | Ok (tracked_rows, row_count) => Completed tracked_rows row_count
  | Err e => Failed e
  end.

(** ** Sample data *)

Module Sample.

Definition w0 : world := World [] [].

(** Rows and specification of the end-to-end scenario on names. *)
Definition by_name : Criteria :=
  [("name", {[ "method" := "exact_case_insensitive" ]})].
Definition alice1 : Row := {[ "id" := "1"; "name" := "Alice" ]}.
Definition alice2 : Row := {[ "id" := "2"; "name" := "alice" ]}.
Definition bob3 : Row := {[ "id" := "3"; "name" := "Bob" ]}.

(** Two columns compared exactly. *)
Definition by_a_b : Criteria :=
  [("a", {[ "method" := "exact" ]}); ("b", {[ "method" := "exact" ]})].
Definition row_1_23 : Row := {[ "a" := "1"; "b" := "23" ]}.
Definition row_12_3 : Row := {[ "a" := "12"; "b" := "3" ]}.

(** Specifications that do not resolve. *)
Definition bogus_a : Criteria := [("a", {[ "method" := "bogus" ]})].
Definition no_method_a : Criteria := [("a", ∅)].
Definition row_b : Row := {[ "b" := "1" ]}.

End Sample.

(** ** The command line

    The [if __name__ == "__main__"] block.  What it asks of pathlib and of
    the two readers is gathered in an [environment]: a path is the string it
    was built from. *)

Record environment : Type := Environment {
  (** [Path(p).is_file()], [Path(p).is_dir()] *)
  is_file : string → bool;
  is_dir : string → bool;
  (** [str(Path(p))], [Path(p).stem] *)
  path_str : string → string;
  path_stem : string → string;
  (** the rows [csv.DictReader] yields for a file, the dictionary
      [json.load] returns for a file *)
  read_rows : string → list Row;
  load_spec : string → Criteria
}.

(** How the script ends: it runs to its end, raises [SystemExit] with a
    message, or lets an exception of [main] escape. *)
Inductive termination : Type :=
  | Returned
  | SystemExit (msg : string)
  | Raised (e : exception).

Definition LF : string := String (ascii_of_nat 10) "".

(** [USAGE_MESSAGE.format(prog)] *)
Definition USAGE_MESSAGE (prog : string) : string :=
  LF +:+ "Usage:" +:+ LF
  +:+ "    python " +:+ prog
  +:+ " <datafile_path> <specfile_path> <output_directory_path>" +:+ LF +:+ LF
  +:+ "<datafile_path> is the path to a CSV datafile." +:+ LF
  +:+ "<specfile_path> is the path to a JSON specfile describing how to identify duplicate rows in the datafile."
  +:+ LF
  +:+ "<output_directory_path> is the path to the directory in which the output CSV file should be saved."
  +:+ LF.

Definition incorrect_arguments_msg (arg_count : Z) : string :=
  "Incorrect number of arguments given (" +:+ pretty arg_count +:+ "). Expected 3.".

Definition not_a_datafile_msg (data_path : string) : string :=
  "The given datafile path ('" +:+ data_path +:+ "') does not refer to a file.".

Definition not_a_specfile_msg (spec_path : string) : string :=
  "The given specification file path ('" +:+ spec_path
  +:+ "') does not refer to a file.".

Definition not_a_directory_msg (output_path : string) : string :=
  "The given output file path ('" +:+ output_path
  +:+ "') does not refer to a directory.".

(** One [if not ...: print(...); invalid = True] of the script, on the pair
    of [invalid] and the world. *)
Definition require (ok : bool) (line : string) (st : bool * world) : bool * world :=
  if ok then st else (true, print line st.2).

(** The script, started as [prog] with the arguments [args]
    ([sys.argv[0]] and [sys.argv[1:]]). *)
Definition command_line (env : environment) (prog : string) (args : list string)
    (w : world) : termination * world :=
  let arg_count := Z.of_nat (List.length args) in
  match args with
  | [data_path; spec_path; output_path] =>
      let st := (false, w) in
      let st := require (is_file env data_path)
                  (not_a_datafile_msg (path_str env data_path)) st in
      let st := require (is_file env spec_path)
                  (not_a_specfile_msg (path_str env spec_path)) st in
      let st := require (is_dir env output_path)
                  (not_a_directory_msg (path_str env output_path)) st in
      if st.1 then (SystemExit (USAGE_MESSAGE prog), st.2)
      else
        match main (path_stem env data_path) (read_rows env data_path)
                (load_spec env spec_path) output_path st.2 with
        | (Ok _, w') => (Returned, w')
        | (Err e, w') => (Raised e, w')
        end
  | _ =>
      (SystemExit (USAGE_MESSAGE prog), print (incorrect_arguments_msg arg_count) w)
  end.

Module SampleFiles.

(** A directory [out], a data file [people.csv] with the rows of the
    scenario on names, and its specification [spec.json]. *)
Definition env : environment :=
  {| is_file p := bool_decide (p = "people.csv") || bool_decide (p = "spec.json");
     is_dir p := bool_decide (p = "out");
     path_str p := p;
     path_stem p := if bool_decide (p = "people.csv") then "people" else p;
     read_rows p :=
       if bool_decide (p = "people.csv")
       then [Sample.alice1; Sample.alice2; Sample.bob3] else [];
     load_spec p := if bool_decide (p = "spec.json") then Sample.by_name else [] |}.

End SampleFiles.

(** ** Records of uneven length

    For a record with fewer fields than the header, [csv.DictReader] gives
    the missing columns the value [None]; a record with more fields gets the
    surplus as a list under the key [None], which no column key of a
    specification, a string, ever equals.  What the engine sees of such a
    row is a map from column names to fields, a field being a string
    ([Some s]) or [None].  The functions below are the same source
    functions on these rows, with the two exceptions that a [None] field
    raises at [value_hash_functions[i](row[column_key])] and at
    [hashed_key += ...]. *)

Abbreviation RaggedRow := (gmap string (option string)).

Inductive raised : Type :=
  | Known (e : exception)
  | AttributeError (msg : string)
  | TypeError (msg : string).

Inductive attempt (A : Type) : Type :=
  | Fine (a : A)
  | Raise (r : raised).
Arguments Fine {A} a.
Arguments Raise {A} r.

Definition is_Fine {A} (m : attempt A) : Prop := ∃ a, m = Fine a.

Definition DQ : string := String (ascii_of_nat 34) "".

(** The message of [None.lower()] and of [str + None]. *)
Definition no_lower_msg : string := "'NoneType' object has no attribute 'lower'".
Definition concatenate_none_msg : string :=
  "can only concatenate str (not " +:+ DQ +:+ "NoneType" +:+ DQ +:+ ") to str".

(** [x.lower()] on a field *)
Definition lower_field (x : option string) : attempt string :=
  match x with
  | Some s => Fine (Str.lower s)
  | None => Raise (AttributeError no_lower_msg)
  end.

(** [get_value_hash_function], its lambdas applied to fields *)
Definition get_value_hash_function_ragged (method_and_params : Descriptor)
  : result (option string → attempt (option string)) :=
  match method_and_params !! ATTRIBUTE_METHOD with
  | Some method =>
      if decide (method = METHOD_EXACT) then
        Ok (λ x, Fine x)
      else if decide (method = METHOD_EXACT_CASE_INSENSITIVE) then
        Ok (λ x, match lower_field x with
                 | Fine s => Fine (Some s)
                 | Raise r => Raise r
                 end)
      else if decide (method = METHOD_EXACT_LOWERCASE_ALPHANUMERIC) then
        Ok (λ x, match lower_field x with
                 | Fine s => Fine (Some (Str.re_sub_not_a_z_0_9 "" s))
                 | Raise r => Raise r
                 end)
      else
        Err (ValueError (not_recognised_msg method))
  | None => Err (KeyError no_method_key_msg)
  end.

(** The loop of [track_row] *)
Fixpoint hash_columns_ragged (row : RaggedRow)
    (value_hash_functions : list (option string → attempt (option string)))
    (i : nat) (column_keys : list string) (hashed_key : string) : attempt string :=
  match column_keys with
  | [] => Fine hashed_key
  | column_key :: column_keys' =>
      match row !! column_key with
      | Some field =>
          match value_hash_functions !! i with
          | Some vhf =>
              match vhf field with
              | Fine (Some s) =>
                  hash_columns_ragged row value_hash_functions (S i) column_keys'
                    (hashed_key +:+ s)
              | Fine None => Raise (TypeError concatenate_none_msg)
              | Raise r => Raise r
              end
          | None => Raise (Known (IndexError "list index out of range"))
          end
      | None => Raise (Known (KeyError (no_column_msg column_key)))
      end
  end.

(** [track_row] *)
Definition track_row_ragged (row : RaggedRow) (column_keys : list string)
    (value_hash_functions : list (option string → attempt (option string)))
    (unique_rows : Dict.t RaggedRow) : attempt (Dict.t RaggedRow) :=
  match hash_columns_ragged row value_hash_functions 0 column_keys "" with
  | Fine hashed_key => Fine (Dict.set unique_rows hashed_key row)
  | Raise r => Raise r
  end.

(** The list comprehension of [remove_duplicates] *)
Definition value_hash_functions_of_ragged (criteria : Criteria)
  : result (list (option string → attempt (option string))) :=
  mapM (λ column_key,
          Dict.getitem criteria column_key ≫= get_value_hash_function_ragged)
       (Dict.keys criteria).

(** One iteration of the loop of [remove_duplicates], and the loop *)
Definition loop_body_ragged (criteria : Criteria) (st : Dict.t RaggedRow * Z)
    (row : RaggedRow) : attempt (Dict.t RaggedRow * Z) :=
  let row_count := st.2 + 1 in
  match value_hash_functions_of_ragged criteria with
  | Ok vhfs =>
      match track_row_ragged row (Dict.keys criteria) vhfs st.1 with
      | Fine tracked_rows => Fine (tracked_rows, row_count)
      | Raise r => Raise r
      end
  | Err e => Raise (Known e)
  end.

Fixpoint loop_ragged (criteria : Criteria) (st : Dict.t RaggedRow * Z)
    (reader : list RaggedRow) : attempt (Dict.t RaggedRow * Z) :=
  match reader with
  | [] => Fine st
  | row :: reader' =>
      match loop_body_ragged criteria st row with
      | Fine st' => loop_ragged criteria st' reader'
      | Raise r => Raise r
      end
  end.

(** [remove_duplicates] *)
Definition remove_duplicates_ragged (source : list RaggedRow) (criteria : Criteria)
    (w : world) : attempt (list RaggedRow) * world :=
  match loop_ragged criteria (Dict.empty, 0) source with
  | Fine (tracked_rows, row_count) =>
      (Fine (Dict.values tracked_rows),
       print ("Removed " +:+ pretty (row_count - Dict.len tracked_rows)
              +:+ " duplicate(s) from " +:+ pretty row_count +:+ " row(s).") w)
  | Raise r => (Raise r, w)
  end.

(** The composite key of such a row, as one iteration builds it. *)
Definition composite_key_ragged (criteria : Criteria) (row : RaggedRow)
  : attempt string :=
  match value_hash_functions_of_ragged criteria with
  | Ok vhfs => hash_columns_ragged row vhfs 0 (Dict.keys criteria) ""
  | Err e => Raise (Known e)
  end.

(** What a run on rows of strings amounts to on rows of fields, and a
    function on strings that a function on fields extends. *)
Definition lift_result {A B} (g : A → B) (m : result A) : attempt B :=
  match m with
  | Ok a => Fine (g a)
  | Err e => Raise (Known e)
  end.

Definition agree (f : string → string) (f' : option string → attempt (option string))
  : Prop :=
  ∀ s, f' (Some s) = Fine (Some (f s)).

(** A row as the engine sees it when every field is a string. *)
Definition fields (row : Row) : RaggedRow := Some <$> row.

(** The column holds a string in the row. *)
Definition has_string (row : RaggedRow) (column_key : string) : Prop :=
  ∃ s, row !! column_key = Some (Some s).

#[global] Instance has_string_dec row column_key : Decision (has_string row column_key).
Proof.
  unfold has_string. destruct (row !! column_key) as [[s|]|].
  - left. by exists s.
  - right. by intros [s ?].
  - right. by intros [s ?].
Defined.

(** The function that the comprehension holds for a column. *)
Definition resolved_for (criteria : Criteria) (column_key : string)
    (vhf : option string → attempt (option string)) : Prop :=
  ∃ d, Dict.get criteria column_key = Some d
       ∧ get_value_hash_function_ragged d = Ok vhf.

(** What a [None] field raises under a descriptor: [hashed_key += None]
    under "exact", [None.lower()] otherwise. *)
Definition none_raises (d : Descriptor) : raised :=
  if decide (d !! ATTRIBUTE_METHOD = Some METHOD_EXACT)
  then TypeError concatenate_none_msg
  else AttributeError no_lower_msg.

Module SampleRagged.

(** The records [1,Alice], [4] and [3,Bob] under the header [id,name]. *)
Definition alice1 : RaggedRow := {[ "id" := Some "1"; "name" := Some "Alice" ]}.
Definition short4 : RaggedRow := {[ "id" := Some "4"; "name" := None ]}.
Definition bob3 : RaggedRow := {[ "id" := Some "3"; "name" := Some "Bob" ]}.

Definition by_name_exact : Criteria := [("name", {[ "method" := "exact" ]})].

End SampleRagged.

(** * Properties *)

(** ** Strings *)

Lemma append_cons (c : ascii) (x y : string) :
  String c x +:+ y = String c (x +:+ y).
Proof. reflexivity. Qed.

Lemma append_empty_r (x : string) : x +:+ "" = x.
Proof. induction x as [|c x IH]; [done | by rewrite append_cons, IH]. Qed.

Lemma append_assoc (x y z : string) : (x +:+ y) +:+ z = x +:+ (y +:+ z).
Proof. induction x as [|c x IH]; [done | by rewrite !append_cons, IH]. Qed.



Lemma concat_cons (x : string) (xs : list string) :
  String.concat "" (x :: xs) = x +:+ String.concat "" xs.
Proof. destruct xs; [symmetry; apply append_empty_r | done]. Qed.

Lemma re_sub_runs_empty (in_run : bool) (x : string) :
  Str.re_sub_runs "" in_run x = Str.keep Str.in_a_z_0_9 x.
Proof.
  revert in_run. induction x as [|c x IH]; intros in_run; simpl; [done|].
  destruct (Str.in_a_z_0_9 c); [by rewrite IH|].
  destruct in_run; apply IH.
Qed.


Lemma MissingColumn_not_MissingAttribute (c : string) : MissingColumn c ≠ MissingAttribute.
Proof. by intros [= ?]. Qed.

(** ** Fallible list comprehensions *)

Section mapM_result.
Context {A B : Type} (f : A → result B).

Lemma mapM_cons (x : A) (l : list A) :
  mapM f (x :: l) = y ← f x; ys ← mapM f l; mret (y :: ys).
Proof. done. Qed.

Lemma mapM_Ok (l : list A) (ys : list B) :
  mapM f l = Ok ys ↔ Forall2 (λ x y, f x = Ok y) l ys.
Proof.
  revert ys. induction l as [|x l IH]; intros ys.
  - simpl. split; [intros [= <-]; constructor | by inversion 1].
  - rewrite mapM_cons. split.
    + destruct (f x) as [y|e] eqn:Hx; simpl; [|done].
      destruct (mapM f l) as [ys'|e] eqn:Hl; simpl; [|done].
      intros [= <-]. constructor; [done | by apply IH].
    + inversion 1 as [|? y ? ys' Hx Hl]; subst. rewrite Hx. simpl.
      apply IH in Hl. rewrite Hl. done.
Qed.

Lemma mapM_Ok_length (l : list A) (ys : list B) :
  mapM f l = Ok ys → List.length ys = List.length l.
Proof. rewrite mapM_Ok. intros H. symmetry. by eapply Forall2_length. Qed.

(** The comprehension raises the error of the first element that fails. *)
Lemma mapM_Err_intro (l1 : list A) (x : A) (l2 : list A) (e : exception) :
  Forall (λ x, is_Ok (f x)) l1 → f x = Err e → mapM f (l1 ++ x :: l2) = Err e.
Proof.
  intros Hall Hx. induction Hall as [|x1 l1 [y Hy] _ IH].
  - by rewrite app_nil_l, mapM_cons, Hx.
  - rewrite <-app_comm_cons, mapM_cons, Hy. simpl. by rewrite IH.
Qed.

Lemma mapM_Err_elim (l : list A) (e : exception) :
  mapM f l = Err e →
  ∃ l1 x l2, l = l1 ++ x :: l2 ∧ Forall (λ x, is_Ok (f x)) l1 ∧ f x = Err e.
Proof.
  induction l as [|x l IH]; [done|].
  rewrite mapM_cons. destruct (f x) as [y|e'] eqn:Hx; simpl.
  - destruct (mapM f l) as [ys|e'] eqn:Hl; simpl; [done|].
    intros [= ->]. destruct (IH eq_refl) as (l1 & x' & l2 & -> & ? & ?).
    exists (x :: l1), x', l2. split_and!; [done| |done].
    constructor; [by eexists | done].
  - intros [= ->]. exists [], x, l. split_and!; [done | constructor | done].
Qed.
End mapM_result.

(** ** Dictionaries *)

Lemma filter_none {A} (P : A → Prop) `{!∀ x, Decision (P x)} (l : list A) :
  Forall (λ x, ¬ P x) l → filter P l = [].
Proof.
  induction 1 as [|x l Hx _ IH]; [done|]. by rewrite filter_cons_False.
Qed.

Section dict_facts.
Context {V : Type}.
Implicit Types (d : Dict.t V) (k : string) (v : V).

Lemma dict_get_set_eq d k v : Dict.get (Dict.set d k v) k = Some v.
Proof.
  induction d as [|[k' v'] d IH]; simpl.
  - by rewrite decide_True.
  - destruct (decide (k' = k)) as [->|Hne]; simpl.
    + by rewrite decide_True.
    + by rewrite decide_False.
Qed.

Lemma dict_get_set_ne d k k' v :
  k ≠ k' → Dict.get (Dict.set d k v) k' = Dict.get d k'.
Proof.
  intros Hne. induction d as [|[k0 v0] d IH]; simpl.
  - by rewrite decide_False.
  - destruct (decide (k0 = k)) as [->|Hne0]; simpl.
    + by rewrite !decide_False.
    + by rewrite IH.
Qed.

Lemma dict_get_None d k : Dict.get d k = None ↔ k ∉ Dict.keys d.
Proof.
  unfold Dict.keys. induction d as [|[k' v'] d IH]; simpl.
  - split; [intros _; apply not_elem_of_nil | done].
  - rewrite not_elem_of_cons. destruct (decide (k' = k)) as [->|Hne].
    + split; [done | intros [? _]; done].
    + rewrite IH. split; [by intros ? | by intros [_ ?]].
Qed.

Lemma dict_get_is_Some d k : is_Some (Dict.get d k) ↔ k ∈ Dict.keys d.
Proof.
  rewrite <-not_eq_None_Some, dict_get_None.
  split; [apply dec_stable | auto].
Qed.

Lemma dict_get_elem_of d k v : Dict.get d k = Some v → (k, v) ∈ d.
Proof.
  induction d as [|[k' v'] d IH]; simpl; [done|].
  destruct (decide (k' = k)) as [->|Hne].
  - intros [= ->]. left.
  - intros H. right. auto.
Qed.

Lemma dict_elem_of_get d k v :
  NoDup (Dict.keys d) → (k, v) ∈ d → Dict.get d k = Some v.
Proof.
  unfold Dict.keys. induction d as [|[k' v'] d IH]; simpl.
  - by intros _ ?%elem_of_nil.
  - rewrite NoDup_cons. intros [Hk' Hnd] [[= -> ->]|Hin]%elem_of_cons.
    + by rewrite decide_True.
    + rewrite decide_False; [auto|].
      intros ->. apply Hk'. apply list_elem_of_fmap. by exists (k, v).
Qed.

(** Assigning to a fresh key appends an item; assigning to a present key
    keeps the keys and their order. *)
Lemma dict_set_fresh d k v : k ∉ Dict.keys d → Dict.set d k v = d ++ [(k, v)].
Proof.
  unfold Dict.keys. induction d as [|[k' v'] d IH]; simpl; [done|].
  rewrite not_elem_of_cons. intros [Hne Hk].
  rewrite decide_False by done. by rewrite IH.
Qed.

Lemma dict_keys_set_present d k v :
  k ∈ Dict.keys d → Dict.keys (Dict.set d k v) = Dict.keys d.
Proof.
  unfold Dict.keys. induction d as [|[k' v'] d IH]; simpl.
  - by intros ?%elem_of_nil.
  - destruct (decide (k' = k)) as [->|Hne]; simpl; [done|].
    intros [?|Hin]%elem_of_cons; [done|]. f_equal. by apply IH.
Qed.

Lemma dict_keys_set d k v :
  Dict.keys (Dict.set d k v)
  = if decide (k ∈ Dict.keys d) then Dict.keys d else Dict.keys d ++ [k].
Proof.
  destruct (decide (k ∈ Dict.keys d)) as [Hin|Hnin].
  - by apply dict_keys_set_present.
  - rewrite dict_set_fresh by done. unfold Dict.keys. by rewrite fmap_app.
Qed.

Lemma dict_NoDup_keys_set d k v :
  NoDup (Dict.keys d) → NoDup (Dict.keys (Dict.set d k v)).
Proof.
  intros Hnd. rewrite dict_keys_set. case_decide; [done|].
  apply NoDup_app. split_and!; [done | | apply NoDup_singleton].
  intros k' Hk' ->%list_elem_of_singleton. done.
Qed.

(** With distinct keys, a key that is present has exactly one item. *)
Lemma dict_filter_key d k v :
  NoDup (Dict.keys d) → Dict.get d k = Some v →
  filter (λ item, item.1 = k) d = [(k, v)].
Proof.
  unfold Dict.keys. induction d as [|[k' v'] d IH]; [done|].
  rewrite fmap_cons, NoDup_cons. intros [Hk' Hnd] Hget. simpl in Hk', Hget.
  destruct (decide (k' = k)) as [->|Hne].
  - injection Hget as ->. rewrite filter_cons_True by done. f_equal.
    apply filter_none, Forall_forall. intros [k0 v0] Hin ?; simplify_eq/=.
    apply Hk'. apply list_elem_of_fmap. by exists (k, v0).
  - rewrite filter_cons_False by done. auto.
Qed.

Lemma dict_values_filter (P : V → Prop) `{!∀ v, Decision (P v)}
    (Q : string * V → Prop) `{!∀ item, Decision (Q item)} d :
  Forall (λ item, P item.2 ↔ Q item) d →
  filter P (Dict.values d) = Dict.values (filter Q d).
Proof.
  unfold Dict.values. induction 1 as [|item d HPQ _ IH]; [done|].
  rewrite fmap_cons. destruct (decide (Q item)) as [HQ|HQ].
  - rewrite (filter_cons_True Q) by done.
    rewrite filter_cons_True by by apply HPQ. by rewrite fmap_cons, IH.
  - rewrite (filter_cons_False Q) by done.
    rewrite filter_cons_False by by rewrite HPQ. done.
Qed.
End dict_facts.

(** ** The loop of [remove_duplicates] *)

Section engine.
Context (criteria : Criteria).
Implicit Types (row : Row) (rows source : list Row).
Implicit Types (tracked_rows : Dict.t Row) (row_count : Z) (k : string).

(** One iteration stores the row under its composite key. *)
Lemma loop_body_key (st : Dict.t Row * Z) row :
  loop_body criteria st row
  = k ← composite_key criteria row; mret (Dict.set st.1 k row, st.2 + 1).
Proof.
  unfold loop_body, composite_key, track_row.
  destruct (value_hash_functions_of criteria) as [vhfs|e]; simpl; [|done].
  by destruct (hash_columns row vhfs 0 (Dict.keys criteria) "").
Qed.

Lemma loop_app (st : Dict.t Row * Z) rows rows' :
  loop criteria st (rows ++ rows')
  = st' ← loop criteria st rows; loop criteria st' rows'.
Proof.
  revert st. induction rows as [|row rows IH]; intros st; [done|].
  rewrite <-app_comm_cons. simpl.
  destruct (loop_body criteria st row) as [st'|e]; simpl; [apply IH | done].
Qed.

Lemma loop_snoc (st : Dict.t Row * Z) rows row :
  loop criteria st (rows ++ [row])
  = st' ← loop criteria st rows; loop_body criteria st' row.
Proof.
  rewrite loop_app. destruct (loop criteria st rows) as [st'|e]; simpl; [|done].
  by destruct (loop_body criteria st' row).
Qed.

(** The invariant of the loop: the count of rows read, every row read had
    a composite key, the keys of the table are distinct, and each key maps
    to the last row read that has it. *)
Lemma loop_invariant rows tracked_rows row_count :
  loop criteria (Dict.empty, 0) rows = Ok (tracked_rows, row_count) →
  row_count = Z.of_nat (List.length rows)
  ∧ Forall (λ row, is_Ok (composite_key criteria row)) rows
  ∧ NoDup (Dict.keys tracked_rows)
  ∧ ∀ k, Dict.get tracked_rows k
         = last (filter (λ row, composite_key criteria row = Ok k) rows).
Proof.
  revert tracked_rows row_count.
  induction rows as [|row rows IH] using rev_ind; intros tracked_rows row_count.
  - intros [= <- <-]. split_and!; [done | constructor | constructor | done].
  - rewrite loop_snoc.
    destruct (loop criteria (Dict.empty, 0) rows) as [[t n]|e]; simpl; [|done].
    destruct (IH t n eq_refl) as (-> & Hkeys & Hnd & Hget).
    rewrite loop_body_key. simpl.
    destruct (composite_key criteria row) as [k0|e] eqn:Hrow; simpl; [|done].
    intros [= <- <-]. split_and!.
    + rewrite length_app. simpl. lia.
    + apply Forall_app. split; [done|]. constructor; [|constructor].
      rewrite Hrow. by eexists.
    + by apply dict_NoDup_keys_set.
    + intros k. rewrite filter_app, filter_cons, filter_nil, Hrow.
      destruct (decide (k0 = k)) as [->|Hne].
      * rewrite decide_True by done. by rewrite dict_get_set_eq, last_snoc.
      * rewrite decide_False by congruence.
        by rewrite dict_get_set_ne, app_nil_r.
Qed.

Lemma loop_row_count rows tracked_rows row_count :
  loop criteria (Dict.empty, 0) rows = Ok (tracked_rows, row_count) →
  row_count = Z.of_nat (List.length rows).
Proof. intros H. apply (loop_invariant _ _ _ H). Qed.

(** Every item of the table is a row of the input under its own key. *)
Lemma loop_items rows tracked_rows row_count k row :
  loop criteria (Dict.empty, 0) rows = Ok (tracked_rows, row_count) →
  (k, row) ∈ tracked_rows →
  row ∈ rows ∧ composite_key criteria row = Ok k.
Proof.
  intros (_ & _ & Hnd & Hget)%loop_invariant Hin.
  apply dict_elem_of_get in Hin; [|done]. rewrite Hget in Hin.
  apply last_Some_elem_of, list_elem_of_filter in Hin as [? ?]. done.
Qed.

(** The keys of the table are the composite keys of the input. *)
Lemma loop_keys rows tracked_rows row_count k :
  loop criteria (Dict.empty, 0) rows = Ok (tracked_rows, row_count) →
  k ∈ Dict.keys tracked_rows
  ↔ ∃ row, row ∈ rows ∧ composite_key criteria row = Ok k.
Proof.
  intros (_ & _ & Hnd & Hget)%loop_invariant.
  rewrite <-dict_get_is_Some, Hget, last_is_Some. split.
  - intros Hne.
    destruct (filter (λ row, composite_key criteria row = Ok k) rows)
      as [|row l] eqn:Hf; [done|].
    assert (row ∈ filter (λ row, composite_key criteria row = Ok k) rows) as Hin
      by (rewrite Hf; left).
    apply list_elem_of_filter in Hin as [? ?]. by exists row.
  - intros (row & Hin & Hrow) Hf.
    eapply (filter_nil_not_elem_of _ _ row); eauto.
Qed.

(** Reading rows whose keys are distinct and not in the table appends
    them, in order. *)
Lemma loop_fresh (items : Dict.t Row) tracked_rows row_count :
  NoDup (Dict.keys tracked_rows ++ Dict.keys items) →
  Forall (λ item, composite_key criteria item.2 = Ok item.1) items →
  loop criteria (tracked_rows, row_count) (Dict.values items)
  = Ok (tracked_rows ++ items, row_count + Z.of_nat (List.length items)).
Proof.
  revert tracked_rows row_count.
  induction items as [|[k row] items IH]; intros tracked_rows row_count Hnd Hitems.
  - simpl. by rewrite app_nil_r, Z.add_0_r.
  - inversion_clear Hitems as [|?? Hrow Hitems']. simpl in Hrow.
    unfold Dict.values. rewrite fmap_cons. simpl.
    rewrite loop_body_key, Hrow. simpl.
    assert (k ∉ Dict.keys tracked_rows) as Hfresh.
    { apply NoDup_app in Hnd as (_ & Hdisj & _). intros Hk.
      apply (Hdisj _ Hk). unfold Dict.keys. rewrite fmap_cons. left. }
    rewrite dict_set_fresh by done.
    fold (Dict.values items). rewrite IH.
    + rewrite <-app_assoc. simpl. do 2 f_equal. lia.
    + unfold Dict.keys in *. rewrite fmap_app, <-app_assoc. done.
    + done.
Qed.
End engine.

(** ** Building the composite key *)

Lemma drop_cons_inv {A} (l : list A) (i : nat) (x : A) (l' : list A) :
  drop i l = x :: l' → l !! i = Some x ∧ drop (S i) l = l'.
Proof.
  revert l. induction i as [|i IH]; intros [|y l] H; simplify_eq/=; auto.
Qed.

Section hash_columns_facts.
Context (row : Row).
Implicit Types (vhfs fs : list (string → string)) (cols : list string).

(** When every column is present the loop of [track_row] appends, in
    order, each function applied to its column's value. *)
Lemma hash_columns_present vhfs fs i cols (values : list string) (hashed_key : string) :
  drop i vhfs = fs → (List.length cols ≤ List.length fs)%nat →
  Forall2 (λ c value, row !! c = Some value) cols values →
  hash_columns row vhfs i cols hashed_key
  = Ok (hashed_key +:+ String.concat "" (zip_with (λ vhf value, vhf value) fs values)).
Proof.
  intros Hfs Hlen Hcols. revert fs i hashed_key Hfs Hlen.
  induction Hcols as [|c value cols values Hc _ IH]; intros fs i hashed_key Hfs Hlen.
  - simpl. destruct fs; simpl; by rewrite append_empty_r.
  - destruct fs as [|f fs]; simpl in Hlen; [lia|].
    apply drop_cons_inv in Hfs as [Hi Hfs].
    cbn [hash_columns zip_with]. rewrite Hc, Hi. rewrite (IH fs).
    + by rewrite concat_cons, append_assoc.
    + done.
    + lia.
Qed.

(** The first column that the row lacks is the one reported. *)
Lemma hash_columns_missing vhfs i cols c cols' (hashed_key : string) :
  (List.length cols ≤ List.length (drop i vhfs))%nat →
  Forall (λ c, is_Some (row !! c)) cols → row !! c = None →
  hash_columns row vhfs i (cols ++ c :: cols') hashed_key = Err (MissingColumn c).
Proof.
  intros Hlen Hcols Hc. revert i hashed_key Hlen.
  induction Hcols as [|c0 cols [value Hc0] _ IH]; intros i hashed_key Hlen.
  - simpl. by rewrite Hc.
  - simpl in Hlen. destruct (drop i vhfs) as [|f fs] eqn:Hfs; simpl in Hlen; [lia|].
    apply drop_cons_inv in Hfs as [Hi Hfs].
    rewrite <-app_comm_cons. cbn [hash_columns]. rewrite Hc0, Hi. apply IH.
    rewrite Hfs. lia.
Qed.
End hash_columns_facts.

Lemma Forall_or_first {A} (P : A → Prop) `{!∀ x, Decision (P x)} (l : list A) :
  Forall P l ∨ ∃ l1 x l2, l = l1 ++ x :: l2 ∧ Forall P l1 ∧ ¬ P x.
Proof.
  induction l as [|x l [IH|(l1 & y & l2 & -> & Hl1 & Hy)]].
  - left. constructor.
  - destruct (decide (P x)) as [Hx|Hx].
    + left. by constructor.
    + right. exists [], x, l. split_and!; [done | constructor | done].
  - destruct (decide (P x)) as [Hx|Hx].
    + right. exists (x :: l1), y, l2. split_and!; [done | by constructor | done].
    + right. exists [], x, (l1 ++ y :: l2). split_and!; [done | constructor | done].
Qed.

Section composite_key_facts.
Context (criteria : Criteria).
Implicit Types (row : Row) (vhfs : list (string → string)).

Lemma complete_values row :
  complete criteria row →
  ∃ values, Forall2 (λ c value, row !! c = Some value) (Dict.keys criteria) values.
Proof.
  unfold complete. induction 1 as [|c cols [value Hc] _ [values IH]].
  - exists []. constructor.
  - exists (value :: values). by constructor.
Qed.

Lemma value_hash_functions_length vhfs :
  value_hash_functions_of criteria = Ok vhfs →
  List.length vhfs = List.length (Dict.keys criteria).
Proof. apply mapM_Ok_length. Qed.

Lemma composite_key_present row vhfs (values : list string) :
  value_hash_functions_of criteria = Ok vhfs →
  Forall2 (λ c value, row !! c = Some value) (Dict.keys criteria) values →
  composite_key criteria row
  = Ok (String.concat "" (zip_with (λ vhf value, vhf value) vhfs values)).
Proof.
  intros Hvhfs Hvalues. unfold composite_key. rewrite Hvhfs. simpl.
  apply (hash_columns_present row vhfs vhfs 0 _ values ""); [done| |done].
  by rewrite (value_hash_functions_length _ Hvhfs).
Qed.

Lemma composite_key_missing row vhfs cols c cols' :
  value_hash_functions_of criteria = Ok vhfs →
  Dict.keys criteria = cols ++ c :: cols' →
  Forall (λ c, is_Some (row !! c)) cols → row !! c = None →
  composite_key criteria row = Err (MissingColumn c).
Proof.
  intros Hvhfs Hkeys Hcols Hc. unfold composite_key. rewrite Hvhfs, Hkeys. simpl.
  apply hash_columns_missing; [|done..].
  rewrite drop_0, (value_hash_functions_length _ Hvhfs), Hkeys, length_app. lia.
Qed.


Lemma composite_key_Ok_inv row k :
  composite_key criteria row = Ok k →
  ∃ vhfs values,
    value_hash_functions_of criteria = Ok vhfs
    ∧ Forall2 (λ c value, row !! c = Some value) (Dict.keys criteria) values
    ∧ k = String.concat "" (zip_with (λ vhf value, vhf value) vhfs values).
Proof.
  intros Hk.
  destruct (value_hash_functions_of criteria) as [vhfs|e] eqn:Hvhfs;
    [|by unfold composite_key in Hk; rewrite Hvhfs in Hk].
  destruct (Forall_or_first (λ c, is_Some (row !! c)) (Dict.keys criteria))
    as [Hall|(cols & c & cols' & Hkeys & Hcols & Hc)].
  - destruct (complete_values _ Hall) as [values Hvalues].
    rewrite (composite_key_present _ _ _ Hvhfs Hvalues) in Hk.
    injection Hk as <-. eauto.
  - rewrite (composite_key_missing _ _ _ _ _ Hvhfs Hkeys Hcols) in Hk; [done|].
    by apply eq_None_not_Some.
Qed.
End composite_key_facts.

(** ** The normalizer resolver *)

Lemma lower_char_upper (c : ascii) :
  Str.is_upper c = true → Str.code (Str.lower_char c) = (Str.code c + 32)%N.
Proof.
  intros Hc. unfold Str.lower_char. rewrite Hc. unfold Str.code.
  destruct c as [[] [] [] [] [] [] [] []]; vm_compute in Hc; try discriminate;
    vm_compute; reflexivity.
Qed.

Lemma lower_char_other (c : ascii) :
  Str.is_upper c = false → Str.lower_char c = c.
Proof. intros Hc. unfold Str.lower_char. by rewrite Hc. Qed.

Lemma keep_elem (p : ascii → bool) (x : string) (c : ascii) :
  c ∈ list_ascii_of_string (Str.keep p x)
  ↔ c ∈ list_ascii_of_string x ∧ p c = true.
Proof.
  induction x as [|c' x IH]; simpl.
  - rewrite elem_of_nil. tauto.
  - destruct (p c') eqn:Hc'; simpl; rewrite ?elem_of_cons, IH;
      intuition (subst; congruence).
Qed.

(** C2. Normalization-method semantics: on a descriptor whose method is
    "exact" the resolver returns a function that leaves every string
    unchanged; for "exact_case_insensitive" a function that returns the
    lowercased string; for "exact_lower_alphanumeric" a function that
    lowercases and then keeps exactly the characters in a-z and 0-9, putting
    nothing in place of what it removes, so that "AB-12 cd" becomes
    "ab12cd". *)
Theorem normalization_methods (method_and_params : Descriptor) (method : string) :
  method_and_params !! ATTRIBUTE_METHOD = Some method →
  (method = "exact" →
     ∃ f, get_value_hash_function method_and_params = Ok f ∧ ∀ s, f s = s)
  ∧ (method = "exact_case_insensitive" →
     ∃ f, get_value_hash_function method_and_params = Ok f
          ∧ ∀ s, f s = Str.lower s)
  ∧ (method = "exact_lower_alphanumeric" →
     ∃ f, get_value_hash_function method_and_params = Ok f
          ∧ (∀ s, f s = Str.keep Str.in_a_z_0_9 (Str.lower s))
          ∧ f "AB-12 cd" = "ab12cd").
Proof.
  intros Hmethod. unfold get_value_hash_function. rewrite Hmethod.
  split_and!; intros ->.
  - eexists. split; [reflexivity | done].
  - eexists. split; [reflexivity | done].
  - eexists. split_and!; [reflexivity | | reflexivity].
    intros s. apply re_sub_runs_empty.
Qed.

Lemma normalization_methods_witness :
  ∃ f, get_value_hash_function {[ "method" := "exact_lower_alphanumeric" ]} = Ok f
       ∧ f "A-1" = "a1" ∧ f "a1" = "a1" ∧ f "A1 " = "a1".
Proof.
  destruct (normalization_methods {[ "method" := "exact_lower_alphanumeric" ]}
              "exact_lower_alphanumeric") as (_ & _ & H); [reflexivity|].
  destruct (H eq_refl) as (f & Hf & Hs & _).
  exists f. rewrite !Hs. split_and!; [exact Hf | reflexivity..].
Defined.

(** C5. Error contract of the resolver: without a "method" key it fails
    with the MissingAttribute error; with a "method" whose value is none of
    the three method names it fails with the UnrecognizedMethod error for
    that value; otherwise it returns a function.  The two errors are of
    different exception classes. *)
Theorem resolver_error_contract (method_and_params : Descriptor) :
  (method_and_params !! ATTRIBUTE_METHOD = None →
     get_value_hash_function method_and_params = Err MissingAttribute)
  ∧ (∀ method, method_and_params !! ATTRIBUTE_METHOD = Some method →
       method ∉ recognised_methods →
       get_value_hash_function method_and_params = Err (UnrecognizedMethod method))
  ∧ (∀ method, method_and_params !! ATTRIBUTE_METHOD = Some method →
       method ∈ recognised_methods →
       is_Ok (get_value_hash_function method_and_params))
  ∧ (∀ method, MissingAttribute ≠ UnrecognizedMethod method).
Proof.
  unfold get_value_hash_function, recognised_methods. split_and!.
  - by intros ->.
  - intros method -> Hmethod. rewrite !not_elem_of_cons in Hmethod.
    destruct Hmethod as (? & ? & ? & _). by rewrite !decide_False.
  - intros method -> Hmethod. repeat case_decide; try by eexists.
    rewrite !elem_of_cons, elem_of_nil in Hmethod. tauto.
  - done.
Qed.

Lemma resolver_error_contract_witness :
  get_value_hash_function ∅ = Err MissingAttribute
  ∧ get_value_hash_function {[ "method" := "bogus" ]} = Err (UnrecognizedMethod "bogus")
  ∧ is_Ok (get_value_hash_function {[ "method" := "exact_case_insensitive" ]}).
Proof.
  split_and!.
  - destruct (resolver_error_contract ∅) as (H & _). apply H. reflexivity.
  - destruct (resolver_error_contract {[ "method" := "bogus" ]}) as (_ & H & _).
    apply H; [reflexivity|].
    unfold recognised_methods. rewrite !not_elem_of_cons.
    split_and!; [done..|apply not_elem_of_nil].
  - destruct (resolver_error_contract {[ "method" := "exact_case_insensitive" ]})
      as (_ & _ & H & _).
    apply (H "exact_case_insensitive"); [reflexivity|]. right. left.
Defined.

(** ** [remove_duplicates] and its loop *)

Lemma remove_duplicates_loop_Ok criteria (source : list Row) tracked_rows row_count w :
  loop criteria (Dict.empty, 0) source = Ok (tracked_rows, row_count) →
  remove_duplicates source criteria w
  = (Ok (Dict.values tracked_rows), print (summary tracked_rows row_count) w).
Proof. unfold remove_duplicates. by intros ->. Qed.

Lemma remove_duplicates_loop_Err criteria (source : list Row) e w :
  loop criteria (Dict.empty, 0) source = Err e →
  remove_duplicates source criteria w = (Err e, w).
Proof. unfold remove_duplicates. by intros ->. Qed.

Lemma remove_duplicates_Ok_inv criteria (source : list Row) w results w' :
  remove_duplicates source criteria w = (Ok results, w') →
  ∃ tracked_rows row_count,
    loop criteria (Dict.empty, 0) source = Ok (tracked_rows, row_count)
    ∧ results = Dict.values tracked_rows
    ∧ w' = print (summary tracked_rows row_count) w.
Proof.
  unfold remove_duplicates.
  destruct (loop criteria (Dict.empty, 0) source) as [[t n]|e]; [|done].
  intros [= <- <-]. eauto.
Qed.

(** [main] writes its file exactly when [remove_duplicates] returns. *)
Lemma main_Err stem criteria (source : list Row) dir e w w' :
  remove_duplicates source criteria w = (Err e, w') →
  main stem source criteria dir w = (Err e, w').
Proof. unfold main. by intros ->. Qed.

(** The last element that satisfies a predicate splits the list. *)
Lemma last_filter_split {A} (P : A → Prop) `{!∀ x, Decision (P x)} (l : list A) (x : A) :
  last (filter P l) = Some x →
  ∃ l1 l2, l = l1 ++ x :: l2 ∧ P x ∧ ∀ y, y ∈ l2 → ¬ P y.
Proof.
  induction l as [|y l IH] using rev_ind; [done|].
  rewrite filter_app, filter_cons, filter_nil.
  destruct (decide (P y)) as [Hy|Hy].
  - rewrite last_snoc. intros [= ->]. exists l, [].
    split_and!; [done..|]. by intros ? ?%elem_of_nil.
  - rewrite app_nil_r. intros (l1 & l2 & -> & Hx & Hl2)%IH.
    exists l1, (l2 ++ [y]). split_and!; [by rewrite <-app_assoc | done |].
    intros z [?|Hz%list_elem_of_singleton]%elem_of_app; [auto | by subst].
Qed.

(** C6. Key concatenation and aliasing: the composite key of a row is the
    concatenation, in the order of the specification's columns, of each
    column's value under that column's function, with nothing between them.
    So the rows a=1, b=23 and a=12, b=3, compared exactly on a and b, differ
    in both columns, get the same key "123", and collapse to one retained
    row. *)
Theorem key_concatenation_aliasing :
  (∀ criteria (row : Row) k,
     composite_key criteria row = Ok k →
     ∃ vhfs values,
       value_hash_functions_of criteria = Ok vhfs
       ∧ Forall2 (λ column_key value, row !! column_key = Some value)
                 (Dict.keys criteria) values
       ∧ k = String.concat "" (zip_with (λ vhf value, vhf value) vhfs values))
  ∧ Sample.row_1_23 !! "a" ≠ Sample.row_12_3 !! "a"
  ∧ Sample.row_1_23 !! "b" ≠ Sample.row_12_3 !! "b"
  ∧ composite_key Sample.by_a_b Sample.row_1_23 = Ok "123"
  ∧ composite_key Sample.by_a_b Sample.row_12_3 = Ok "123"
  ∧ ∀ w, remove_duplicates [Sample.row_1_23; Sample.row_12_3] Sample.by_a_b w
         = (Ok [Sample.row_12_3], print "Removed 1 duplicate(s) from 2 row(s)." w).
Proof.
  split_and!.
  - apply composite_key_Ok_inv.
  - by vm_compute.
  - by vm_compute.
  - by vm_compute.
  - by vm_compute.
  - intros w. by vm_compute.
Qed.

Lemma key_concatenation_aliasing_witness :
  ∃ vhfs values,
    value_hash_functions_of Sample.by_a_b = Ok vhfs
    ∧ Forall2 (λ column_key value, Sample.row_1_23 !! column_key = Some value)
              (Dict.keys Sample.by_a_b) values
    ∧ "123" = String.concat "" (zip_with (λ vhf value, vhf value) vhfs values).
Proof.
  destruct key_concatenation_aliasing as (H & _).
  apply H. vm_compute. reflexivity.
Defined.

(** ** Survivorship *)

(** C1. Last write wins: when processing succeeds, every composite key that
    occurred in the input has exactly one item in the table of tracked rows;
    its row is the last row of the input with that key, and it is the only
    returned row with that key. *)
Theorem last_write_wins (criteria : Criteria) (source : list Row)
    (tracked_rows : Dict.t Row) (row_count : Z) (k : string) :
  loop criteria (Dict.empty, 0) source = Ok (tracked_rows, row_count) →
  (∃ row, row ∈ source ∧ composite_key criteria row = Ok k) →
  ∃ before last_row after,
    source = before ++ last_row :: after
    ∧ composite_key criteria last_row = Ok k
    ∧ (∀ row, row ∈ after → composite_key criteria row ≠ Ok k)
    ∧ Dict.get tracked_rows k = Some last_row
    ∧ filter (λ item, item.1 = k) tracked_rows = [(k, last_row)]
    ∧ filter (λ row, composite_key criteria row = Ok k) (Dict.values tracked_rows)
      = [last_row]
    ∧ ∀ w, (remove_duplicates source criteria w).1 = Ok (Dict.values tracked_rows).
Proof.
  intros Hloop Hk.
  destruct (loop_invariant _ _ _ _ Hloop) as (_ & _ & Hnd & Hget).
  apply (loop_keys _ _ _ _ _ Hloop), dict_get_is_Some in Hk as [last_row Hlast].
  assert (filter (λ item, item.1 = k) tracked_rows = [(k, last_row)]) as Hitems
    by by apply dict_filter_key.
  pose proof Hlast as Hsplit. rewrite Hget in Hsplit.
  apply last_filter_split in Hsplit as (before & after & -> & Hrow & Hafter).
  exists before, last_row, after. split_and!; [done..| |].
  - rewrite (dict_values_filter _ (λ item, item.1 = k)), Hitems; [done|].
    apply Forall_forall. intros [k' row'] Hin.
    destruct (loop_items _ _ _ _ _ _ Hloop Hin) as [_ Hrow']. simpl.
    rewrite Hrow'. split; congruence.
  - intros w. by rewrite (remove_duplicates_loop_Ok _ _ _ _ _ Hloop).
Qed.

Lemma last_write_wins_witness :
  ∃ before last_row after,
    [Sample.alice1; Sample.alice2; Sample.bob3] = before ++ last_row :: after
    ∧ composite_key Sample.by_name last_row = Ok "alice"
    ∧ (∀ row, row ∈ after → composite_key Sample.by_name row ≠ Ok "alice")
    ∧ Dict.get [("alice", Sample.alice2); ("bob", Sample.bob3)] "alice" = Some last_row
    ∧ filter (λ item, item.1 = "alice") [("alice", Sample.alice2); ("bob", Sample.bob3)]
      = [("alice", last_row)]
    ∧ filter (λ row, composite_key Sample.by_name row = Ok "alice")
        (Dict.values [("alice", Sample.alice2); ("bob", Sample.bob3)])
      = [last_row]
    ∧ ∀ w, (remove_duplicates [Sample.alice1; Sample.alice2; Sample.bob3]
              Sample.by_name w).1
           = Ok (Dict.values [("alice", Sample.alice2); ("bob", Sample.bob3)]).
Proof.
  apply (last_write_wins Sample.by_name [Sample.alice1; Sample.alice2; Sample.bob3]
           [("alice", Sample.alice2); ("bob", Sample.bob3)] 3 "alice").
  - vm_compute. reflexivity.
  - exists Sample.alice1. split; [left | vm_compute; reflexivity].
Defined.

(** ** Counts *)

Lemma mapM_Ok_total {A B} (f : A → result B) (l : list A) :
  Forall (λ x, is_Ok (f x)) l → ∃ ys, mapM f l = Ok ys.
Proof.
  induction 1 as [|x l [y Hy] _ [ys IH]].
  - by exists [].
  - exists (y :: ys). rewrite mapM_cons, Hy. simpl. by rewrite IH.
Qed.

Lemma mapM_Ok_elem_of {A B} (f : A → result B) (l : list A) (ys : list B) (y : B) :
  mapM f l = Ok ys → y ∈ ys ↔ ∃ x, x ∈ l ∧ f x = Ok y.
Proof.
  rewrite mapM_Ok. induction 1 as [|x y' l ys Hx _ IH].
  - split; [by intros ?%elem_of_nil | by intros (? & ?%elem_of_nil & _)].
  - rewrite elem_of_cons, IH. split.
    + intros [->|(x' & ? & ?)]; [exists x | exists x']; rewrite elem_of_cons; auto.
    + intros (x' & [->|?]%elem_of_cons & Hx'); [left; congruence | right; eauto].
Qed.

(** The table has one item per distinct composite key of the input. *)
Lemma loop_len criteria (source : list Row) tracked_rows row_count ks :
  loop criteria (Dict.empty, 0) source = Ok (tracked_rows, row_count) →
  mapM (composite_key criteria) source = Ok ks →
  List.length tracked_rows = List.length (remove_dups ks).
Proof.
  intros Hloop Hks.
  destruct (loop_invariant _ _ _ _ Hloop) as (_ & _ & Hnd & _).
  rewrite <-(length_fmap fst tracked_rows). apply Permutation_length.
  apply NoDup_Permutation; [done | apply NoDup_remove_dups |].
  intros k. fold (Dict.keys tracked_rows).
  by rewrite (loop_keys _ _ _ _ _ Hloop), elem_of_remove_dups, (mapM_Ok_elem_of _ _ _ _ Hks).
Qed.

(** C3, as the code has it.  When processing succeeds, the engine returns
    the retained rows and nothing else; the counts are printed: it adds to
    the standard output the one line that gives the number removed, which
    is the total minus the number of retained rows, and the total, which is
    the number of rows consumed.  The retained rows are as many as the
    distinct composite keys of the input, and a row whose composite key no
    other row of the input has is among the retained rows. *)
Theorem counts_and_no_merging (criteria : Criteria) (source : list Row)
    (w : world) (results : list Row) (w' : world) :
  remove_duplicates source criteria w = (Ok results, w') →
  ∃ ks,
    mapM (composite_key criteria) source = Ok ks
    ∧ List.length results = List.length (remove_dups ks)
    ∧ (let total := Z.of_nat (List.length source) in
       let retained := Z.of_nat (List.length results) in
       0 ≤ total - retained
       ∧ stdout w'
         = stdout w ++ ["Removed " +:+ pretty (total - retained)
                        +:+ " duplicate(s) from " +:+ pretty total +:+ " row(s)."]
       ∧ written w' = written w)
    ∧ ∀ (i : nat) row,
        source !! i = Some row →
        (∀ (j : nat) row', j ≠ i → source !! j = Some row' →
           composite_key criteria row' ≠ composite_key criteria row) →
        row ∈ results.
Proof.
  intros (tracked_rows & row_count & Hloop & -> & ->)%remove_duplicates_Ok_inv.
  destruct (loop_invariant _ _ _ _ Hloop) as (-> & Hkeys & Hnd & Hget).
  destruct (mapM_Ok_total _ _ Hkeys) as [ks Hks].
  pose proof (loop_len _ _ _ _ _ Hloop Hks) as Hlen.
  exists ks. unfold Dict.values. rewrite length_fmap. split_and!; [done..| | | |].
  - assert (List.length (Dict.keys tracked_rows) ≤ List.length ks)%nat as Hle.
    { apply submseteq_length, NoDup_submseteq; [done|]. intros k Hk.
      apply (loop_keys _ _ _ _ _ Hloop) in Hk.
      by apply (mapM_Ok_elem_of _ _ _ _ Hks). }
    unfold Dict.keys in Hle. rewrite length_fmap in Hle.
    rewrite (mapM_Ok_length _ _ _ Hks) in Hle. lia.
  - done.
  - done.
  - intros i row Hi Hunique.
    assert (row ∈ source) as Hin by by eapply list_elem_of_lookup_2.
    destruct (proj1 (Forall_forall _ _) Hkeys row Hin) as [k Hk].
    assert (is_Some (Dict.get tracked_rows k)) as [row' Hrow'].
    { apply dict_get_is_Some, (loop_keys _ _ _ _ _ Hloop). eauto. }
    pose proof Hrow' as Hlast. rewrite Hget in Hlast.
    apply last_Some_elem_of, list_elem_of_filter in Hlast as [Hk' Hin'].
    apply list_elem_of_lookup in Hin' as [j Hj].
    destruct (decide (j = i)) as [->|Hne].
    + assert (row' = row) as -> by congruence.
      apply list_elem_of_fmap. exists (k, row). split; [done|].
      by apply dict_get_elem_of.
    + destruct (Hunique j row' Hne Hj). congruence.
Qed.

Lemma counts_and_no_merging_witness :
  ∃ ks,
    mapM (composite_key Sample.by_name) [Sample.alice1; Sample.alice2; Sample.bob3] = Ok ks
    ∧ List.length [Sample.alice2; Sample.bob3] = List.length (remove_dups ks)
    ∧ (let total := Z.of_nat (List.length [Sample.alice1; Sample.alice2; Sample.bob3]) in
       let retained := Z.of_nat (List.length [Sample.alice2; Sample.bob3]) in
       0 ≤ total - retained
       ∧ stdout (World ["Removed 1 duplicate(s) from 3 row(s)."] [])
         = stdout Sample.w0
           ++ ["Removed " +:+ pretty (total - retained)
               +:+ " duplicate(s) from " +:+ pretty total +:+ " row(s)."]
       ∧ written (World ["Removed 1 duplicate(s) from 3 row(s)."] [])
         = written Sample.w0)
    ∧ ∀ (i : nat) row,
        [Sample.alice1; Sample.alice2; Sample.bob3] !! i = Some row →
        (∀ (j : nat) row', j ≠ i →
           [Sample.alice1; Sample.alice2; Sample.bob3] !! j = Some row' →
           composite_key Sample.by_name row' ≠ composite_key Sample.by_name row) →
        row ∈ [Sample.alice2; Sample.bob3].
Proof.
  apply (counts_and_no_merging Sample.by_name
           [Sample.alice1; Sample.alice2; Sample.bob3] Sample.w0
           [Sample.alice2; Sample.bob3]
           (World ["Removed 1 duplicate(s) from 3 row(s)."] [])).
  vm_compute. reflexivity.
Defined.

(** The claim C3 fails as stated: what the engine returns is the list of
    retained rows alone.  Two inputs with different numbers of rows return
    the same value; the number of rows consumed shows only in the line each
    run prints. *)
Lemma counts_counterexample :
  (remove_duplicates [Sample.alice2; Sample.bob3] Sample.by_name Sample.w0).1
  = Ok [Sample.alice2; Sample.bob3]
  ∧ (remove_duplicates [Sample.alice1; Sample.alice2; Sample.bob3]
       Sample.by_name Sample.w0).1
    = Ok [Sample.alice2; Sample.bob3]
  ∧ List.length [Sample.alice2; Sample.bob3]
    ≠ List.length [Sample.alice1; Sample.alice2; Sample.bob3]
  ∧ stdout (remove_duplicates [Sample.alice2; Sample.bob3] Sample.by_name Sample.w0).2
    = ["Removed 0 duplicate(s) from 2 row(s)."]
  ∧ stdout (remove_duplicates [Sample.alice1; Sample.alice2; Sample.bob3]
              Sample.by_name Sample.w0).2
    = ["Removed 1 duplicate(s) from 3 row(s)."].
Proof. split_and!; by vm_compute. Qed.

(** ** Running the engine on its own output *)

(** C7. Idempotence: when the engine succeeds, running it again on the rows
    it returned, under the same specification, succeeds and returns as many
    rows as it was given (the same rows, in the same order), reporting that
    no duplicate was removed. *)
Theorem idempotence (criteria : Criteria) (source : list Row)
    (w : world) (results : list Row) (w' : world) :
  remove_duplicates source criteria w = (Ok results, w') →
  ∃ results' w'',
    remove_duplicates results criteria w' = (Ok results', w'')
    ∧ List.length results' = List.length results
    ∧ results' = results
    ∧ w'' = print ("Removed 0 duplicate(s) from "
                   +:+ pretty (Z.of_nat (List.length results)) +:+ " row(s).") w'.
Proof.
  intros (tracked_rows & row_count & Hloop & -> & ->)%remove_duplicates_Ok_inv.
  destruct (loop_invariant _ _ _ _ Hloop) as (_ & _ & Hnd & _).
  assert (loop criteria (Dict.empty, 0) (Dict.values tracked_rows)
          = Ok (tracked_rows, Z.of_nat (List.length tracked_rows))) as Hagain.
  { rewrite (loop_fresh criteria tracked_rows Dict.empty 0); [done|done|].
    apply Forall_forall. intros [k row] Hin.
    by destruct (loop_items _ _ _ _ _ _ Hloop Hin). }
  eexists _, _. split; [by apply remove_duplicates_loop_Ok|].
  split_and!; [done..|].
  unfold summary, Dict.len, Dict.values. rewrite length_fmap, Z.sub_diag. done.
Qed.

Lemma idempotence_witness :
  ∃ results' w'',
    remove_duplicates [Sample.alice2; Sample.bob3] Sample.by_name
      (print "Removed 1 duplicate(s) from 3 row(s)." Sample.w0) = (Ok results', w'')
    ∧ List.length results' = List.length [Sample.alice2; Sample.bob3]
    ∧ results' = [Sample.alice2; Sample.bob3]
    ∧ w'' = print ("Removed 0 duplicate(s) from "
                   +:+ pretty (Z.of_nat (List.length [Sample.alice2; Sample.bob3]))
                   +:+ " row(s).")
              (print "Removed 1 duplicate(s) from 3 row(s)." Sample.w0).
Proof.
  apply (idempotence Sample.by_name [Sample.alice1; Sample.alice2; Sample.bob3] Sample.w0).
  vm_compute. reflexivity.
Defined.

(** ** The empty specification *)

Lemma loop_body_no_columns (st : Dict.t Row * Z) (row : Row) :
  loop_body [] st row = Ok (Dict.set st.1 "" row, st.2 + 1).
Proof. done. Qed.

Lemma loop_no_columns (source : list Row) :
  loop [] (Dict.empty, 0) source
  = Ok (match last source with Some row => [("", row)] | None => [] end,
        Z.of_nat (List.length source)).
Proof.
  induction source as [|row source IH] using rev_ind; [done|].
  rewrite loop_snoc, IH. simpl. rewrite loop_body_no_columns, last_snoc, length_app.
  simpl. do 2 f_equal; [by destruct (last source) | lia].
Qed.

(** C9. Empty specification: with no column named, processing succeeds,
    every row has the empty string as composite key, and a non-empty input
    is reduced to its last row; the empty input gives no row. *)
Theorem empty_specification_collapse (source : list Row) (last_row : Row) (w : world) :
  (∀ row : Row, composite_key [] row = Ok "")
  ∧ remove_duplicates (source ++ [last_row]) [] w
    = (Ok [last_row],
       print ("Removed " +:+ pretty (Z.of_nat (List.length source))
              +:+ " duplicate(s) from "
              +:+ pretty (Z.of_nat (List.length source) + 1) +:+ " row(s).") w)
  ∧ remove_duplicates [] [] w
    = (Ok [], print "Removed 0 duplicate(s) from 0 row(s)." w).
Proof.
  split_and!; [done| |done].
  unfold remove_duplicates. rewrite loop_no_columns, last_snoc, length_app. simpl.
  unfold summary, Dict.len. simpl.
  replace (Z.of_nat (List.length source + 1) - Z.of_nat 1)
    with (Z.of_nat (List.length source)) by lia.
  replace (Z.of_nat (List.length source + 1))
    with (Z.of_nat (List.length source) + 1) by lia.
  done.
Qed.

(** ** Determinism of the engine *)

Section transitions.
Context (criteria : Criteria).

Lemma step_deterministic (s s1 s2 : engine) :
  step criteria s s1 → step criteria s s2 → s1 = s2.
Proof. destruct 1; inversion 1; congruence. Qed.

Lemma final_no_step (s s' : engine) : final s → ¬ step criteria s s'.
Proof. by destruct 2. Qed.

Lemma processing_runs (reader : list Row) (tracked_rows : Dict.t Row) (row_count : Z) :
  rtc (step criteria) (Processing reader tracked_rows row_count)
    match loop criteria (tracked_rows, row_count) reader with
    | Ok (tracked_rows', row_count') => Completed tracked_rows' row_count'
    | Err e => Failed e
    end.
Proof.
  revert tracked_rows row_count.
  induction reader as [|row reader IH]; intros tracked_rows row_count.
  - apply rtc_once. constructor.
  - simpl. unfold loop_body. simpl.
    destruct (value_hash_functions_of criteria) as [vhfs|e] eqn:Hvhfs; simpl.
    + destruct (track_row row (Dict.keys criteria) vhfs tracked_rows)
        as [tracked_rows'|e] eqn:Htrack; simpl.
      * eapply rtc_l; [by eapply step_row | apply IH].
      * apply rtc_once. by eapply step_bad_row.
    + apply rtc_once. by apply step_bad_method.
Qed.

(** Every run ends, in the state that the loop computes. *)
Lemma engine_terminates (source : list Row) :
  runs_to criteria source (outcome criteria source).
Proof.
  split.
  - eapply rtc_l; [apply step_open | apply processing_runs].
  - unfold outcome. by destruct (loop criteria (Dict.empty, 0) source) as [[??]|?].
Qed.

Lemma runs_unique (s s1 s2 : engine) :
  rtc (step criteria) s s1 → final s1 →
  rtc (step criteria) s s2 → final s2 → s1 = s2.
Proof.
  intros Hrun1 Hfinal1. revert s2.
  induction Hrun1 as [s|s s' s1 Hstep _ IH]; intros s2 Hrun2 Hfinal2.
  - inversion Hrun2 as [|? s' ? Hstep Hrest]; subst; [done|].
    by destruct (final_no_step _ _ Hfinal1 Hstep).
  - inversion Hrun2 as [|? s'' ? Hstep' Hrest]; subst.
    + by destruct (final_no_step _ _ Hfinal2 Hstep).
    + rewrite (step_deterministic _ _ _ Hstep' Hstep) in Hrest. auto.
Qed.

Lemma runs_to_outcome (source : list Row) (s : engine) :
  runs_to criteria source s → s = outcome criteria source.
Proof.
  intros [Hrun Hfinal]. destruct (engine_terminates source) as [Hrun' Hfinal'].
  by eapply runs_unique.
Qed.
End transitions.

Lemma loop_Err_inv criteria (rows : list Row) (st : Dict.t Row * Z) (e : exception) :
  loop criteria st rows = Err e →
  ∃ before row after st',
    rows = before ++ row :: after
    ∧ loop criteria st before = Ok st'
    ∧ loop_body criteria st' row = Err e.
Proof.
  revert st. induction rows as [|row rows IH]; intros st; [done|].
  simpl. destruct (loop_body criteria st row) as [st1|e1] eqn:Hbody; simpl.
  - intros (before & row' & after & st' & -> & Hbefore & Hrow')%IH.
    exists (row :: before), row', after, st'. split_and!; [done| |done].
    simpl. by rewrite Hbody.
  - intros [= ->]. by exists [], row, rows, st.
Qed.

Lemma value_hash_functions_Ok_methods criteria (vhfs : list (string → string)) :
  value_hash_functions_of criteria = Ok vhfs →
  ∀ column_key d, Dict.get criteria column_key = Some d →
    ∃ method, d !! ATTRIBUTE_METHOD = Some method ∧ method ∈ recognised_methods.
Proof.
  unfold value_hash_functions_of. intros Hvhfs%mapM_Ok c d Hc.
  assert (c ∈ Dict.keys criteria) as Hin by by apply dict_get_is_Some.
  apply list_elem_of_lookup in Hin as [i Hi].
  destruct (Forall2_lookup_l _ _ _ _ _ Hvhfs Hi) as (f & _ & Hf).
  unfold Dict.getitem in Hf. rewrite Hc in Hf. simpl in Hf.
  unfold get_value_hash_function in Hf.
  destruct (d !! ATTRIBUTE_METHOD) as [method|]; [|done].
  exists method. split; [done|]. unfold recognised_methods.
  repeat case_decide; try done; subst; rewrite !elem_of_cons; auto.
Qed.

Lemma composite_key_Ok_complete criteria (row : Row) :
  is_Ok (composite_key criteria row) → complete criteria row.
Proof.
  intros [k (vhfs & values & _ & Hvalues & _)%composite_key_Ok_inv].
  unfold complete. induction Hvalues; constructor; eauto.
Qed.

(** C10. Determinism: two runs of the engine on equal inputs and equal
    specifications end in the same state, and the input fixes which.
    Either both failed with the same error, the one raised for the first
    row of the input whose composite key cannot be built; or both completed
    with the same table of tracked rows and the same count of rows consumed:
    the count is the length of the input, every row has every column of the
    specification, the specification is valid unless no row was read, the
    keys of the table are distinct and each maps to the last row of the
    input with that composite key.  [remove_duplicates] returns and prints
    accordingly. *)
Theorem engine_deterministic (criteria criteria' : Criteria)
    (source source' : list Row) (s s' : engine) :
  source = source' → criteria = criteria' →
  runs_to criteria source s → runs_to criteria' source' s' →
  s = s'
  ∧ ((∃ e, s = Failed e ∧ s' = Failed e
           ∧ (∃ before row after,
                source = before ++ row :: after
                ∧ Forall (λ r, is_Ok (composite_key criteria r)) before
                ∧ composite_key criteria row = Err e)
           ∧ ∀ w, remove_duplicates source criteria w = (Err e, w)
                  ∧ remove_duplicates source' criteria' w = (Err e, w))
     ∨ (∃ tracked_rows row_count,
           s = Completed tracked_rows row_count
           ∧ s' = Completed tracked_rows row_count
           ∧ row_count = Z.of_nat (List.length source)
           ∧ Forall (complete criteria) source
           ∧ (source = []
              ∨ ∀ column_key d, Dict.get criteria column_key = Some d →
                  ∃ method, d !! ATTRIBUTE_METHOD = Some method
                            ∧ method ∈ recognised_methods)
           ∧ NoDup (Dict.keys tracked_rows)
           ∧ (∀ k, Dict.get tracked_rows k
                   = last (filter (λ row, composite_key criteria row = Ok k) source))
           ∧ ∀ w, remove_duplicates source criteria w
                  = (Ok (Dict.values tracked_rows),
                     print (summary tracked_rows row_count) w)
                  ∧ remove_duplicates source' criteria' w
                    = (Ok (Dict.values tracked_rows),
                       print (summary tracked_rows row_count) w))).
Proof.
  intros <- <- ->%runs_to_outcome ->%runs_to_outcome. split; [done|].
  unfold outcome.
  destruct (loop criteria (Dict.empty, 0) source) as [[tracked_rows row_count]|e] eqn:Hloop.
  - right. exists tracked_rows, row_count.
    destruct (loop_invariant _ _ _ _ Hloop) as (Hcount & Hkeys & Hnd & Hget).
    split_and!; [done..| | | | |].
    + eapply Forall_impl; [exact Hkeys|]. apply composite_key_Ok_complete.
    + destruct source as [|row source]; [by left|]. right.
      inversion Hkeys as [|? ? [k Hk] _]; subst.
      apply composite_key_Ok_inv in Hk as (vhfs & _ & Hvhfs & _).
      by eapply value_hash_functions_Ok_methods.
    + done.
    + done.
    + intros w. by rewrite (remove_duplicates_loop_Ok _ _ _ _ _ Hloop).
  - left. exists e. split_and!; [done..| |].
    + destruct (loop_Err_inv _ _ _ _ Hloop) as (before & row & after & st & -> & Hbefore & Hrow).
      exists before, row, after. split_and!; [done| |].
      * destruct st as [t n]. by destruct (loop_invariant _ _ _ _ Hbefore) as (_ & ? & _).
      * rewrite loop_body_key in Hrow.
        destruct (composite_key criteria row) as [k|e']; simpl in Hrow; [done|].
        by injection Hrow as ->.
    + intros w. by rewrite (remove_duplicates_loop_Err _ _ _ _ Hloop).
Qed.

Lemma engine_deterministic_witness :
  outcome Sample.by_name [Sample.alice1; Sample.alice2; Sample.bob3]
  = Completed [("alice", Sample.alice2); ("bob", Sample.bob3)] 3.
Proof.
  destruct (engine_deterministic Sample.by_name Sample.by_name
              [Sample.alice1; Sample.alice2; Sample.bob3]
              [Sample.alice1; Sample.alice2; Sample.bob3]
              (outcome Sample.by_name [Sample.alice1; Sample.alice2; Sample.bob3])
              (Completed [("alice", Sample.alice2); ("bob", Sample.bob3)] 3)
              eq_refl eq_refl) as [H _].
  - apply engine_terminates.
  - split; [|exact I].
    eapply rtc_l; [apply step_open|].
    eapply rtc_l; [eapply step_row; vm_compute; reflexivity|].
    eapply rtc_l; [eapply step_row; vm_compute; reflexivity|].
    eapply rtc_l; [eapply step_row; vm_compute; reflexivity|].
    apply rtc_once. apply step_close.
  - exact H.
Defined.

(** ** Failures *)

Lemma get_value_hash_function_Err (method_and_params : Descriptor) (e : exception) :
  get_value_hash_function method_and_params = Err e →
  (method_and_params !! ATTRIBUTE_METHOD = None ∧ e = MissingAttribute)
  ∨ (∃ method, method_and_params !! ATTRIBUTE_METHOD = Some method
               ∧ (method ∉ recognised_methods) ∧ e = UnrecognizedMethod method).
Proof.
  unfold get_value_hash_function, recognised_methods.
  destruct (method_and_params !! ATTRIBUTE_METHOD) as [method|]; [|intros [= <-]; by left].
  repeat case_decide; try done. intros [= <-]. right. exists method.
  split_and!; [done| |done]. rewrite !not_elem_of_cons. split_and!; [done..|].
  apply not_elem_of_nil.
Qed.

Lemma get_value_hash_function_not_Ok (method_and_params : Descriptor) :
  (method_and_params !! ATTRIBUTE_METHOD = None
   ∨ ∃ method, method_and_params !! ATTRIBUTE_METHOD = Some method
               ∧ method ∉ recognised_methods) →
  ¬ is_Ok (get_value_hash_function method_and_params).
Proof.
  unfold get_value_hash_function, recognised_methods.
  intros [->|(method & -> & Hmethod)] [f Hf]; [done|].
  rewrite !not_elem_of_cons in Hmethod. destruct Hmethod as (? & ? & ? & _).
  by rewrite !decide_False in Hf.
Qed.

Section failures.
Context (criteria : Criteria).



(** The first row raises what resolving the specification raises. *)
Lemma loop_unresolved (row : Row) (rows : list Row) (st : Dict.t Row * Z) (e : exception) :
  value_hash_functions_of criteria = Err e →
  loop criteria st (row :: rows) = Err e.
Proof. intros Hvhfs. simpl. unfold loop_body. by rewrite Hvhfs. Qed.
End failures.




(** C8, as the code has it.  When the input has at least one row and the
    specification maps some column to a descriptor without a "method" key
    or with an unrecognized method name, the run aborts with the
    configuration error of the first such column in the order of the
    specification, whatever the rows contain; nothing is printed and no file
    is written. *)
Theorem configuration_error_aborts (stem : string) (source : list Row)
    (criteria : Criteria) (outputdirectory : string) (w : world) :
  source ≠ [] →
  (∃ column_key d,
     Dict.get criteria column_key = Some d
     ∧ (d !! ATTRIBUTE_METHOD = None
        ∨ ∃ method, d !! ATTRIBUTE_METHOD = Some method ∧ method ∉ recognised_methods)) →
  ∃ cols column_key cols' d e,
    Dict.keys criteria = cols ++ column_key :: cols'
    ∧ Forall (λ c, ∃ d0, Dict.get criteria c = Some d0
                         ∧ is_Ok (get_value_hash_function d0)) cols
    ∧ Dict.get criteria column_key = Some d
    ∧ ((d !! ATTRIBUTE_METHOD = None ∧ e = MissingAttribute)
       ∨ ∃ method, d !! ATTRIBUTE_METHOD = Some method
                   ∧ (method ∉ recognised_methods) ∧ e = UnrecognizedMethod method)
    ∧ remove_duplicates source criteria w = (Err e, w)
    ∧ main stem source criteria outputdirectory w = (Err e, w).
Proof.
  intros Hsource (c0 & d0 & Hc0 & Hd0%get_value_hash_function_not_Ok).
  destruct source as [|row rows]; [done|].
  destruct (value_hash_functions_of criteria) as [vhfs|e] eqn:Hvhfs.
  { exfalso. apply Hd0. unfold value_hash_functions_of in Hvhfs.
    assert (c0 ∈ Dict.keys criteria) as Hin by by apply dict_get_is_Some.
    apply mapM_Ok in Hvhfs. apply list_elem_of_lookup in Hin as [i Hi].
    destruct (Forall2_lookup_l _ _ _ _ _ Hvhfs Hi) as (f & _ & Hf).
    unfold Dict.getitem in Hf. rewrite Hc0 in Hf. by exists f. }
  pose proof Hvhfs as Hfirst. unfold value_hash_functions_of in Hfirst.
  apply mapM_Err_elim in Hfirst as (cols & column_key & cols' & Hkeys & Hcols & Hcol).
  assert (is_Some (Dict.get criteria column_key)) as [d Hd].
  { apply dict_get_is_Some. rewrite Hkeys. apply elem_of_app. right. left. }
  unfold Dict.getitem in Hcol. rewrite Hd in Hcol. simpl in Hcol.
  assert (remove_duplicates (row :: rows) criteria w = (Err e, w)) as Hrd
    by by apply remove_duplicates_loop_Err, loop_unresolved.
  exists cols, column_key, cols', d, e.
  split_and!; [done| |done|by apply get_value_hash_function_Err|done|by apply main_Err].
  eapply Forall_impl; [exact Hcols|]. intros c [f Hf]. unfold Dict.getitem in Hf.
  destruct (Dict.get criteria c) as [d'|]; [|done]. exists d'. split; [done | by exists f].
Qed.

Lemma configuration_error_aborts_witness :
  ∃ cols column_key cols' d e,
    Dict.keys Sample.bogus_a = cols ++ column_key :: cols'
    ∧ Forall (λ c, ∃ d0, Dict.get Sample.bogus_a c = Some d0
                         ∧ is_Ok (get_value_hash_function d0)) cols
    ∧ Dict.get Sample.bogus_a column_key = Some d
    ∧ ((d !! ATTRIBUTE_METHOD = None ∧ e = MissingAttribute)
       ∨ ∃ method, d !! ATTRIBUTE_METHOD = Some method
                   ∧ (method ∉ recognised_methods) ∧ e = UnrecognizedMethod method)
    ∧ remove_duplicates [Sample.row_b] Sample.bogus_a Sample.w0 = (Err e, Sample.w0)
    ∧ main "data" [Sample.row_b] Sample.bogus_a "out" Sample.w0 = (Err e, Sample.w0).
Proof.
  apply (configuration_error_aborts "data" [Sample.row_b] Sample.bogus_a "out" Sample.w0).
  - discriminate.
  - exists "a", {[ "method" := "bogus" ]}. split; [reflexivity|].
    right. exists "bogus". split; [reflexivity|].
    unfold recognised_methods. rewrite !not_elem_of_cons.
    split_and!; [done..|apply not_elem_of_nil].
Defined.

(** The claim C8 fails as stated: on an input without data rows the
    functions are never resolved, so a specification whose descriptor has no
    "method" key raises nothing; the summary is printed and the output file
    is written, with no rows. *)
Lemma configuration_error_counterexample :
  Dict.get Sample.no_method_a "a" = Some ∅
  ∧ (∅ : Descriptor) !! ATTRIBUTE_METHOD = None
  ∧ get_value_hash_function ∅ = Err MissingAttribute
  ∧ main "data" [] Sample.no_method_a "out" Sample.w0
    = (Ok (),
       World ["Removed 0 duplicate(s) from 0 row(s)."]
             [CsvFile "out" "data_duplicates_removed.csv" []]).
Proof. split_and!; by vm_compute. Qed.

(** * Further properties of the program *)

(** ** What is returned *)

Lemma dict_omap_keys {V} (f : string → option V) (d : Dict.t V) :
  Forall (λ item, f item.1 = Some item.2) d →
  omap f (Dict.keys d) = Dict.values d.
Proof.
  unfold Dict.keys, Dict.values.
  induction 1 as [|[k v] d Hk _ IH]; [done|].
  rewrite !fmap_cons. simpl in Hk. simpl. rewrite Hk. f_equal. apply IH.
Qed.

Lemma loop_values_keys criteria (source : list Row) tracked_rows row_count :
  loop criteria (Dict.empty, 0) source = Ok (tracked_rows, row_count) →
  mapM (composite_key criteria) (Dict.values tracked_rows) = Ok (Dict.keys tracked_rows).
Proof.
  intros Hloop. apply mapM_Ok. unfold Dict.values, Dict.keys.
  apply Forall2_fmap, Forall_Forall2_diag, Forall_forall. intros [k row] Hin.
  by destruct (loop_items _ _ _ _ _ _ Hloop Hin).
Qed.

(** The rows returned are rows of the input, no two of them have the same
    composite key, and the last row of the input is always one of them. *)
Theorem retained_rows_from_input (criteria : Criteria) (source : list Row)
    (w : world) (results : list Row) (w' : world) :
  remove_duplicates source criteria w = (Ok results, w') →
  (∀ row, row ∈ results → row ∈ source)
  ∧ (∃ ks, mapM (composite_key criteria) results = Ok ks ∧ NoDup ks)
  ∧ NoDup results
  ∧ (∀ row, last source = Some row → row ∈ results).
Proof.
  intros (tracked_rows & row_count & Hloop & -> & ->)%remove_duplicates_Ok_inv.
  destruct (loop_invariant _ _ _ _ Hloop) as (_ & _ & Hnd & Hget).
  pose proof (loop_values_keys _ _ _ _ Hloop) as Hks.
  split_and!.
  - intros row (item & -> & Hin)%list_elem_of_fmap. destruct item as [k row].
    by destruct (loop_items _ _ _ _ _ _ Hloop Hin).
  - eauto.
  - apply mapM_Ok in Hks. clear -Hks Hnd.
    induction Hks as [|row k rows ks Hrow Hrows IH]; [constructor|].
    apply NoDup_cons in Hnd as [Hk Hnd]. constructor; [|auto].
    intros Hin. apply Hk.
    apply list_elem_of_lookup in Hin as [i Hi].
    destruct (Forall2_lookup_l _ _ _ _ _ Hrows Hi) as (k' & Hk' & Hrow').
    assert (k' = k) as -> by congruence. by eapply list_elem_of_lookup_2.
  - intros row (before & ->)%last_Some.
    assert (is_Ok (composite_key criteria row)) as [k Hk].
    { destruct (loop_invariant _ _ _ _ Hloop) as (_ & Hkeys & _).
      apply Forall_app in Hkeys as [_ Hrow]. by inversion Hrow. }
    specialize (Hget k). rewrite filter_app, filter_cons_True, filter_nil in Hget by done.
    rewrite last_snoc in Hget. apply dict_get_elem_of in Hget.
    apply list_elem_of_fmap. by exists (k, row).
Qed.

Lemma retained_rows_from_input_witness :
  (∀ row, row ∈ [Sample.alice2; Sample.bob3]
          → row ∈ [Sample.alice1; Sample.alice2; Sample.bob3])
  ∧ (∃ ks, mapM (composite_key Sample.by_name) [Sample.alice2; Sample.bob3] = Ok ks
           ∧ NoDup ks)
  ∧ NoDup [Sample.alice2; Sample.bob3]
  ∧ (∀ row, last [Sample.alice1; Sample.alice2; Sample.bob3] = Some row
            → row ∈ [Sample.alice2; Sample.bob3]).
Proof.
  apply (retained_rows_from_input Sample.by_name
           [Sample.alice1; Sample.alice2; Sample.bob3] Sample.w0 _
           (print "Removed 1 duplicate(s) from 3 row(s)." Sample.w0)).
  vm_compute. reflexivity.
Defined.

(** The keys of the table stand in the order in which they first occurred. *)
Lemma loop_keys_order criteria (source : list Row) tracked_rows row_count ks :
  loop criteria (Dict.empty, 0) source = Ok (tracked_rows, row_count) →
  mapM (composite_key criteria) source = Ok ks →
  Dict.keys tracked_rows = reverse (remove_dups (reverse ks)).
Proof.
  revert tracked_rows row_count ks.
  induction source as [|row source IH] using rev_ind; intros tracked_rows row_count ks.
  - by intros [= <- <-] [= <-].
  - rewrite loop_snoc.
    destruct (loop criteria (Dict.empty, 0) source) as [[t n]|e] eqn:Hloop; simpl; [|done].
    rewrite loop_body_key. simpl.
    destruct (composite_key criteria row) as [k|e] eqn:Hrow; simpl; [|done].
    intros [= <- <-] Hks. apply mapM_Ok, Forall2_app_inv_l in Hks
      as (ks' & ks1 & Hks' & Hk1 & ->).
    inversion Hk1 as [|? k' ? ? Hk' Hnil]; subst. inversion Hnil; subst.
    assert (k' = k) as -> by congruence.
    apply mapM_Ok in Hks'.
    rewrite dict_keys_set, (IH _ _ _ eq_refl Hks'), reverse_app. simpl.
    assert (k ∈ reverse (remove_dups (reverse ks')) ↔ k ∈ reverse ks') as Hiff
      by by rewrite elem_of_reverse, elem_of_remove_dups.
    destruct (decide_rel elem_of k (reverse ks')) as [Hin|Hnin].
    + by rewrite decide_True by by apply Hiff.
    + rewrite decide_False by by rewrite Hiff. by rewrite reverse_cons.
Qed.

(** The returned list is determined: one row for each distinct composite
    key of the input, in the order in which the keys first occur, and for
    each key the last row of the input that has it. *)
Theorem returned_rows_characterised (criteria : Criteria) (source : list Row)
    (w : world) (results : list Row) (w' : world) :
  remove_duplicates source criteria w = (Ok results, w') →
  ∃ ks,
    mapM (composite_key criteria) source = Ok ks
    ∧ mapM (composite_key criteria) results = Ok (reverse (remove_dups (reverse ks)))
    ∧ results
      = omap (λ k, last (filter (λ row, composite_key criteria row = Ok k) source))
             (reverse (remove_dups (reverse ks))).
Proof.
  intros (tracked_rows & row_count & Hloop & -> & ->)%remove_duplicates_Ok_inv.
  destruct (loop_invariant _ _ _ _ Hloop) as (_ & Hkeys & Hnd & Hget).
  destruct (mapM_Ok_total _ _ Hkeys) as [ks Hks]. exists ks.
  rewrite <-(loop_keys_order _ _ _ _ _ Hloop Hks).
  split_and!; [done | by eapply loop_values_keys |].
  symmetry. apply dict_omap_keys, Forall_forall. intros [k row] Hin. simpl.
  rewrite <-Hget. by apply dict_elem_of_get.
Qed.

Lemma returned_rows_characterised_witness :
  ∃ ks,
    mapM (composite_key Sample.by_name) [Sample.alice1; Sample.bob3; Sample.alice2] = Ok ks
    ∧ mapM (composite_key Sample.by_name) [Sample.alice2; Sample.bob3]
      = Ok (reverse (remove_dups (reverse ks)))
    ∧ [Sample.alice2; Sample.bob3]
      = omap (λ k, last (filter (λ row, composite_key Sample.by_name row = Ok k)
                           [Sample.alice1; Sample.bob3; Sample.alice2]))
             (reverse (remove_dups (reverse ks))).
Proof.
  apply (returned_rows_characterised Sample.by_name
           [Sample.alice1; Sample.bob3; Sample.alice2] Sample.w0 _
           (print "Removed 1 duplicate(s) from 3 row(s)." Sample.w0)).
  vm_compute. reflexivity.
Defined.

(** ** When the specification resolves *)

(** The specification resolves exactly when every column is given a
    descriptor whose "method" is one of the three method names; the list of
    functions then has one function per column. *)
Theorem specification_resolves_iff (criteria : Criteria) :
  (is_Ok (value_hash_functions_of criteria)
   ↔ ∀ column_key d, Dict.get criteria column_key = Some d →
       ∃ method, d !! ATTRIBUTE_METHOD = Some method ∧ method ∈ recognised_methods)
  ∧ ∀ vhfs, value_hash_functions_of criteria = Ok vhfs →
      List.length vhfs = List.length criteria.
Proof.
  split.
  - split.
    + intros [vhfs Hvhfs] c d Hc. unfold value_hash_functions_of in Hvhfs.
      assert (c ∈ Dict.keys criteria) as Hin by by apply dict_get_is_Some.
      apply mapM_Ok in Hvhfs. apply list_elem_of_lookup in Hin as [i Hi].
      destruct (Forall2_lookup_l _ _ _ _ _ Hvhfs Hi) as (f & _ & Hf).
      unfold Dict.getitem in Hf. rewrite Hc in Hf. simpl in Hf.
      destruct (d !! ATTRIBUTE_METHOD) as [method|] eqn:Hd.
      * exists method. split; [done|].
        destruct (decide (method ∈ recognised_methods)) as [|Hnot]; [done|].
        destruct (get_value_hash_function_not_Ok d); [eauto | by exists f].
      * destruct (get_value_hash_function_not_Ok d); [eauto | by exists f].
    + intros Hall.
      destruct (value_hash_functions_of criteria) as [vhfs|e] eqn:Hvhfs; [by eexists|].
      unfold value_hash_functions_of in Hvhfs.
      apply mapM_Err_elim in Hvhfs as (cols & c & cols' & Hkeys & _ & Hc).
      assert (is_Some (Dict.get criteria c)) as [d Hd].
      { apply dict_get_is_Some. rewrite Hkeys. apply elem_of_app. right. left. }
      unfold Dict.getitem in Hc. rewrite Hd in Hc. simpl in Hc.
      destruct (Hall c d Hd) as (method & Hmethod & Hin).
      apply get_value_hash_function_Err in Hc
        as [[? _]|(method' & ? & ? & _)]; congruence.
  - intros vhfs Hvhfs. rewrite (value_hash_functions_length _ _ Hvhfs).
    unfold Dict.keys. by rewrite length_fmap.
Qed.

Lemma length_remove_dups_le {A} `{EqDecision A} (l : list A) :
  (List.length (remove_dups l) ≤ List.length l)%nat.
Proof.
  induction l as [|x l IH]; simpl; [done|]. case_match; simpl; lia.
Qed.

Lemma length_remove_dups_eq {A} `{EqDecision A} (l : list A) :
  List.length (remove_dups l) = List.length l ↔ NoDup l.
Proof.
  induction l as [|x l IH]; simpl.
  - split; [constructor | done].
  - rewrite NoDup_cons. pose proof (length_remove_dups_le l).
    destruct (decide_rel elem_of x l) as [Hin|Hnin]; simpl.
    + split; [lia | by intros [? _]].
    + rewrite <-IH. split; [intros [= ?]; done | intros [_ ->]; done].
Qed.

(** As many rows are returned as were read, so that no duplicate is
    reported, exactly when the composite keys of the input are pairwise
    distinct; the input is then returned as it is. *)
Theorem nothing_removed_iff_distinct_keys (criteria : Criteria) (source : list Row)
    (w : world) (results : list Row) (w' : world) :
  remove_duplicates source criteria w = (Ok results, w') →
  ∃ ks,
    mapM (composite_key criteria) source = Ok ks
    ∧ (List.length results = List.length source ↔ NoDup ks)
    ∧ (NoDup ks → results = source).
Proof.
  intros Hrd.
  pose proof Hrd as (tracked_rows & row_count & Hloop & -> & ->)%remove_duplicates_Ok_inv.
  destruct (loop_invariant _ _ _ _ Hloop) as (_ & Hkeys & Hnd & Hget).
  destruct (mapM_Ok_total _ _ Hkeys) as [ks Hks]. exists ks.
  split_and!; [done| |].
  - unfold Dict.values. rewrite length_fmap, (loop_len _ _ _ _ _ Hloop Hks).
    rewrite <-(mapM_Ok_length _ _ _ Hks). apply length_remove_dups_eq.
  - intros Hdistinct.
    assert (loop criteria (Dict.empty, 0) (Dict.values (zip ks source))
            = Ok (zip ks source, Z.of_nat (List.length (zip ks source)))) as Hzip.
    { apply mapM_Ok in Hks.
      rewrite (loop_fresh criteria (zip ks source) Dict.empty 0); [done| |].
      - unfold Dict.keys. simpl. rewrite fst_zip; [done|].
        by rewrite (Forall2_length _ _ _ Hks).
      - clear -Hks. induction Hks; simpl; constructor; auto. }
    assert (Dict.values (zip ks source) = source) as Hvalues.
    { unfold Dict.values. apply snd_zip. apply mapM_Ok_length in Hks. lia. }
    rewrite Hvalues in Hzip. rewrite Hloop in Hzip. injection Hzip as -> _.
    done.
Qed.

Lemma nothing_removed_iff_distinct_keys_witness :
  ∃ ks,
    mapM (composite_key Sample.by_name) [Sample.alice1; Sample.bob3] = Ok ks
    ∧ (List.length [Sample.alice1; Sample.bob3]
       = List.length [Sample.alice1; Sample.bob3] ↔ NoDup ks)
    ∧ (NoDup ks → [Sample.alice1; Sample.bob3] = [Sample.alice1; Sample.bob3]).
Proof.
  apply (nothing_removed_iff_distinct_keys Sample.by_name
           [Sample.alice1; Sample.bob3] Sample.w0 _
           (print "Removed 0 duplicate(s) from 2 row(s)." Sample.w0)).
  vm_compute. reflexivity.
Defined.

(** ** The normalisation functions *)

Lemma lower_char_idempotent (c : ascii) :
  Str.lower_char (Str.lower_char c) = Str.lower_char c.
Proof. destruct c as [[] [] [] [] [] [] [] []]; vm_compute; reflexivity. Qed.

Lemma in_a_z_0_9_not_upper (c : ascii) :
  Str.in_a_z_0_9 c = true → Str.lower_char c = c.
Proof.
  destruct c as [[] [] [] [] [] [] [] []]; vm_compute; intros; congruence.
Qed.

Lemma lower_idempotent (x : string) : Str.lower (Str.lower x) = Str.lower x.
Proof.
  induction x as [|c x IH]; simpl; [done|]. by rewrite lower_char_idempotent, IH.
Qed.

Lemma keep_all (p : ascii → bool) (x : string) :
  (∀ c, c ∈ list_ascii_of_string x → p c = true) → Str.keep p x = x.
Proof.
  induction x as [|c x IH]; simpl; [done|]. intros Hall.
  rewrite (Hall c) by left. rewrite IH; [done|]. intros c' Hc'. apply Hall. by right.
Qed.

Lemma lower_fixed (x : string) :
  (∀ c, c ∈ list_ascii_of_string x → Str.in_a_z_0_9 c = true) → Str.lower x = x.
Proof.
  induction x as [|c x IH]; simpl; [done|]. intros Hall.
  rewrite in_a_z_0_9_not_upper by (apply Hall; left).
  rewrite IH; [done|]. intros c' Hc'. apply Hall. by right.
Qed.

(** Every function the resolver returns is idempotent: a normalised value
    is its own normal form. *)
Theorem normalisation_idempotent (method_and_params : Descriptor)
    (f : string → string) (s : string) :
  get_value_hash_function method_and_params = Ok f →
  f (f s) = f s.
Proof.
  unfold get_value_hash_function.
  destruct (method_and_params !! ATTRIBUTE_METHOD) as [method|]; [|done].
  repeat case_decide; intros [= <-]; try done.
  - apply lower_idempotent.
  - unfold Str.re_sub_not_a_z_0_9. rewrite !re_sub_runs_empty.
    assert (∀ c, c ∈ list_ascii_of_string (Str.keep Str.in_a_z_0_9 (Str.lower s))
                 → Str.in_a_z_0_9 c = true) as Hclass
      by (intros c Hc; by apply keep_elem in Hc as [_ ?]).
    by rewrite (lower_fixed _ Hclass), (keep_all _ _ Hclass).
Qed.

Lemma normalisation_idempotent_witness :
  Str.re_sub_not_a_z_0_9 "" (Str.lower (Str.re_sub_not_a_z_0_9 "" (Str.lower "AB-12 cd")))
  = Str.re_sub_not_a_z_0_9 "" (Str.lower "AB-12 cd").
Proof.
  apply (normalisation_idempotent {[ "method" := "exact_lower_alphanumeric" ]}
           (λ x, Str.re_sub_not_a_z_0_9 "" (Str.lower x)) "AB-12 cd").
  reflexivity.
Defined.

(** The function for "exact_lower_alphanumeric" produces only characters
    of a-z and 0-9, and leaves unchanged a string made of such characters
    only. *)
Theorem normalised_alphabet (method_and_params : Descriptor)
    (f : string → string) (s : string) :
  method_and_params !! ATTRIBUTE_METHOD = Some METHOD_EXACT_LOWERCASE_ALPHANUMERIC →
  get_value_hash_function method_and_params = Ok f →
  (∀ c, c ∈ list_ascii_of_string (f s) → Str.in_a_z_0_9 c = true)
  ∧ ((∀ c, c ∈ list_ascii_of_string s → Str.in_a_z_0_9 c = true) → f s = s).
Proof.
  intros Hmethod. unfold get_value_hash_function. rewrite Hmethod.
  intros Hf. simpl in Hf. injection Hf as <-.
  unfold Str.re_sub_not_a_z_0_9. rewrite !re_sub_runs_empty. split.
  - intros c Hc. by apply keep_elem in Hc as [_ ?].
  - intros Hclass. by rewrite (lower_fixed _ Hclass), (keep_all _ _ Hclass).
Qed.

Lemma normalised_alphabet_witness :
  (∀ c, c ∈ list_ascii_of_string (Str.re_sub_not_a_z_0_9 "" (Str.lower "a1"))
        → Str.in_a_z_0_9 c = true)
  ∧ ((∀ c, c ∈ list_ascii_of_string "a1" → Str.in_a_z_0_9 c = true)
     → Str.re_sub_not_a_z_0_9 "" (Str.lower "a1") = "a1").
Proof.
  apply (normalised_alphabet {[ "method" := "exact_lower_alphanumeric" ]}
           (λ x, Str.re_sub_not_a_z_0_9 "" (Str.lower x)) "a1").
  - reflexivity.
  - reflexivity.
Defined.

(** The three methods are ordered by coarseness: values that are equal are
    equal without case, and values equal without case are equal as
    lowercase alphanumerics. *)
Theorem methods_coarsen (exact ci alnum : string → string) (s t : string) :
  get_value_hash_function {[ ATTRIBUTE_METHOD := METHOD_EXACT ]} = Ok exact →
  get_value_hash_function {[ ATTRIBUTE_METHOD := METHOD_EXACT_CASE_INSENSITIVE ]} = Ok ci →
  get_value_hash_function {[ ATTRIBUTE_METHOD := METHOD_EXACT_LOWERCASE_ALPHANUMERIC ]}
  = Ok alnum →
  (exact s = exact t ↔ s = t)
  ∧ (exact s = exact t → ci s = ci t)
  ∧ (ci s = ci t → alnum s = alnum t)
  ∧ (∀ x, alnum (ci x) = alnum x).
Proof.
  intros Hexact Hci Halnum.
  change (Ok (λ x : string, x) = Ok exact) in Hexact.
  change (Ok (λ x, Str.lower x) = Ok ci) in Hci.
  change (Ok (λ x, Str.re_sub_not_a_z_0_9 "" (Str.lower x)) = Ok alnum) in Halnum.
  injection Hexact as <-. injection Hci as <-. injection Halnum as <-. split_and!.
  - done.
  - by intros ->.
  - by intros ->.
  - intros x. by rewrite lower_idempotent.
Qed.

Lemma methods_coarsen_witness :
  ("Alice" = "alice" ↔ "Alice" = "alice")
  ∧ ("Alice" = "alice" → Str.lower "Alice" = Str.lower "alice")
  ∧ (Str.lower "Alice" = Str.lower "alice"
     → Str.re_sub_not_a_z_0_9 "" (Str.lower "Alice")
       = Str.re_sub_not_a_z_0_9 "" (Str.lower "alice"))
  ∧ (∀ x, Str.re_sub_not_a_z_0_9 "" (Str.lower (Str.lower x))
          = Str.re_sub_not_a_z_0_9 "" (Str.lower x)).
Proof.
  apply (methods_coarsen (λ x, x) Str.lower
           (λ x, Str.re_sub_not_a_z_0_9 "" (Str.lower x)) "Alice" "alice");
    reflexivity.
Defined.

(** ** The composite key and [track_row] *)

Lemma hash_columns_agree (row1 row2 : Row) (vhfs : list (string → string))
    (i : nat) (cols : list string) (hashed_key : string) :
  (∀ c, c ∈ cols → row1 !! c = row2 !! c) →
  hash_columns row1 vhfs i cols hashed_key = hash_columns row2 vhfs i cols hashed_key.
Proof.
  revert i hashed_key. induction cols as [|c cols IH]; intros i hashed_key Hagree; [done|].
  simpl. rewrite <-(Hagree c) by left.
  destruct (row1 !! c) as [value|]; [|done].
  destruct (vhfs !! i) as [vhf|]; [|done].
  apply IH. intros c' Hc'. apply Hagree. by right.
Qed.

(** Only the columns of the specification count: rows that agree on them
    have the same composite key (or fail alike), whatever their other
    columns hold, and the later one replaces the earlier one. *)
Theorem other_columns_ignored (criteria : Criteria) (row1 row2 : Row) (w : world) :
  (∀ column_key, column_key ∈ Dict.keys criteria →
     row1 !! column_key = row2 !! column_key) →
  composite_key criteria row1 = composite_key criteria row2
  ∧ (is_Ok (composite_key criteria row1) →
     remove_duplicates [row1; row2] criteria w
     = (Ok [row2], print "Removed 1 duplicate(s) from 2 row(s)." w)).
Proof.
  intros Hagree.
  assert (composite_key criteria row1 = composite_key criteria row2) as Hsame.
  { unfold composite_key.
    destruct (value_hash_functions_of criteria) as [vhfs|e]; simpl; [|done].
    by apply hash_columns_agree. }
  split; [done|]. intros [k Hk]. unfold remove_duplicates. simpl.
  rewrite !loop_body_key. simpl. rewrite Hk. simpl.
  rewrite loop_body_key. simpl. rewrite <-Hsame, Hk. simpl.
  by rewrite decide_True.
Qed.

Lemma other_columns_ignored_witness :
  composite_key Sample.by_name Sample.alice1
  = composite_key Sample.by_name (<[ "id" := "7" ]> Sample.alice1)
  ∧ (is_Ok (composite_key Sample.by_name Sample.alice1) →
     remove_duplicates [Sample.alice1; <[ "id" := "7" ]> Sample.alice1]
       Sample.by_name Sample.w0
     = (Ok [<[ "id" := "7" ]> Sample.alice1],
        print "Removed 1 duplicate(s) from 2 row(s)." Sample.w0)).
Proof.
  apply (other_columns_ignored Sample.by_name Sample.alice1
           (<[ "id" := "7" ]> Sample.alice1) Sample.w0).
  intros column_key Hin. unfold Sample.by_name, Dict.keys in Hin. simpl in Hin.
  apply list_elem_of_singleton in Hin. subst column_key. vm_compute. reflexivity.
Defined.

(** With a single column there is no aliasing: two rows get the same
    composite key exactly when the column's function maps their values to
    the same string, and under "exact" exactly when the values are equal. *)
Theorem single_column_key (column_key : string) (d : Descriptor)
    (f : string → string) (row1 row2 : Row) (value1 value2 : string) :
  get_value_hash_function d = Ok f →
  row1 !! column_key = Some value1 →
  row2 !! column_key = Some value2 →
  composite_key [(column_key, d)] row1 = Ok (f value1)
  ∧ (composite_key [(column_key, d)] row1 = composite_key [(column_key, d)] row2
     ↔ f value1 = f value2)
  ∧ (d !! ATTRIBUTE_METHOD = Some METHOD_EXACT →
     (composite_key [(column_key, d)] row1 = composite_key [(column_key, d)] row2
      ↔ value1 = value2)).
Proof.
  intros Hf H1 H2.
  assert (∀ (row : Row) value, row !! column_key = Some value →
            composite_key [(column_key, d)] row = Ok (f value)) as Hkey.
  { intros row value Hrow. unfold composite_key, value_hash_functions_of. simpl.
    unfold Dict.getitem. simpl. rewrite decide_True by done. simpl.
    rewrite Hf. simpl. by rewrite Hrow. }
  rewrite (Hkey _ _ H1), (Hkey _ _ H2). split_and!; [done| |].
  - split; [by intros [= ?] | by intros ->].
  - intros Hexact. unfold get_value_hash_function in Hf. rewrite Hexact in Hf.
    rewrite decide_True in Hf by done. injection Hf as <-.
    split; [by intros [= ?] | by intros ->].
Qed.

Lemma single_column_key_witness :
  composite_key [("name", {[ "method" := "exact_case_insensitive" ]})] Sample.alice1
  = Ok (Str.lower "Alice")
  ∧ (composite_key [("name", {[ "method" := "exact_case_insensitive" ]})] Sample.alice1
     = composite_key [("name", {[ "method" := "exact_case_insensitive" ]})] Sample.alice2
     ↔ Str.lower "Alice" = Str.lower "alice")
  ∧ (({[ "method" := "exact_case_insensitive" ]} : Descriptor) !! ATTRIBUTE_METHOD
     = Some METHOD_EXACT →
     (composite_key [("name", {[ "method" := "exact_case_insensitive" ]})] Sample.alice1
      = composite_key [("name", {[ "method" := "exact_case_insensitive" ]})] Sample.alice2
      ↔ "Alice" = "alice")).
Proof.
  apply (single_column_key "name" {[ "method" := "exact_case_insensitive" ]}
           Str.lower Sample.alice1 Sample.alice2 "Alice" "alice");
    vm_compute; reflexivity.
Defined.

Lemma dict_length_set {V} (d : Dict.t V) (k : string) (v : V) :
  List.length (Dict.set d k v)
  = if decide (k ∈ Dict.keys d) then List.length d else S (List.length d).
Proof.
  rewrite <-(length_fmap fst (Dict.set d k v)), <-(length_fmap fst d).
  fold (Dict.keys (Dict.set d k v)) (Dict.keys d). rewrite dict_keys_set.
  case_decide; [done|]. rewrite length_app. simpl. lia.
Qed.

(** A successful [track_row] stores the row under one key: that key now
    maps to the row, every other key maps to what it did, the keys that were
    present keep their order, and the dictionary grows by one item exactly
    when the key is new. *)
Theorem track_row_stores (row : Row) (column_keys : list string)
    (value_hash_functions : list (string → string))
    (unique_rows unique_rows' : Dict.t Row) :
  track_row row column_keys value_hash_functions unique_rows = Ok unique_rows' →
  ∃ hashed_key,
    Dict.get unique_rows' hashed_key = Some row
    ∧ (∀ k, k ≠ hashed_key → Dict.get unique_rows' k = Dict.get unique_rows k)
    ∧ Dict.keys unique_rows'
      = (if decide (hashed_key ∈ Dict.keys unique_rows)
         then Dict.keys unique_rows else Dict.keys unique_rows ++ [hashed_key])
    ∧ Dict.len unique_rows'
      = (if decide (hashed_key ∈ Dict.keys unique_rows)
         then Dict.len unique_rows else Dict.len unique_rows + 1).
Proof.
  unfold track_row.
  destruct (hash_columns row value_hash_functions 0 column_keys "")
    as [hashed_key|e]; simpl; [|done].
  intros [= <-]. exists hashed_key. split_and!.
  - apply dict_get_set_eq.
  - intros k Hk. by apply dict_get_set_ne.
  - apply dict_keys_set.
  - unfold Dict.len. rewrite dict_length_set. case_decide; lia.
Qed.

Lemma track_row_stores_witness :
  ∃ hashed_key,
    Dict.get [("alice", Sample.alice2)] hashed_key = Some Sample.alice2
    ∧ (∀ k, k ≠ hashed_key
            → Dict.get [("alice", Sample.alice2)] k = Dict.get [("alice", Sample.alice1)] k)
    ∧ Dict.keys [("alice", Sample.alice2)]
      = (if decide (hashed_key ∈ Dict.keys [("alice", Sample.alice1)])
         then Dict.keys [("alice", Sample.alice1)]
         else Dict.keys [("alice", Sample.alice1)] ++ [hashed_key])
    ∧ Dict.len [("alice", Sample.alice2)]
      = (if decide (hashed_key ∈ Dict.keys [("alice", Sample.alice1)])
         then Dict.len [("alice", Sample.alice1)]
         else Dict.len [("alice", Sample.alice1)] + 1).
Proof.
  apply (track_row_stores Sample.alice2 ["name"] [Str.lower]
           [("alice", Sample.alice1)] [("alice", Sample.alice2)]).
  vm_compute. reflexivity.
Defined.





(** ** Deduplicating in two passes *)

Lemma loop_table_counter criteria (rows : list Row) (t : Dict.t Row) (n m : Z) :
  fst <$> loop criteria (t, n) rows = fst <$> loop criteria (t, m) rows.
Proof.
  revert t n m. induction rows as [|row rows IH]; intros t n m; [done|].
  simpl. rewrite !loop_body_key. simpl.
  destruct (composite_key criteria row) as [k|e]; simpl; [apply IH | done].
Qed.

Lemma remove_duplicates_returned criteria (source : list Row) (w : world) :
  (remove_duplicates source criteria w).1
  = Dict.values <$> (fst <$> loop criteria (Dict.empty, 0) source).
Proof.
  unfold remove_duplicates.
  by destruct (loop criteria (Dict.empty, 0) source) as [[t n]|e].
Qed.

(** Deduplicating a first part of the data, then the retained rows followed
    by the rest, returns what deduplicating the whole data returns, or fails
    with the same error. *)
Theorem two_passes (criteria : Criteria) (first rest : list Row)
    (w : world) (retained : list Row) (w1 w2 : world) :
  remove_duplicates first criteria w = (Ok retained, w1) →
  (remove_duplicates (retained ++ rest) criteria w2).1
  = (remove_duplicates (first ++ rest) criteria w2).1.
Proof.
  intros (tracked_rows & row_count & Hloop & -> & _)%remove_duplicates_Ok_inv.
  destruct (loop_invariant _ _ _ _ Hloop) as (_ & _ & Hnd & _).
  assert (loop criteria (Dict.empty, 0) (Dict.values tracked_rows)
          = Ok (tracked_rows, Z.of_nat (List.length tracked_rows))) as Hagain.
  { rewrite (loop_fresh criteria tracked_rows Dict.empty 0); [done|done|].
    apply Forall_forall. intros [k row] Hin.
    by destruct (loop_items _ _ _ _ _ _ Hloop Hin). }
  rewrite !remove_duplicates_returned, !loop_app, Hagain, Hloop. simpl.
  f_equal. apply loop_table_counter.
Qed.

Lemma two_passes_witness :
  (remove_duplicates ([Sample.alice2] ++ [Sample.bob3; Sample.alice1])
     Sample.by_name Sample.w0).1
  = (remove_duplicates ([Sample.alice1; Sample.alice2] ++ [Sample.bob3; Sample.alice1])
       Sample.by_name Sample.w0).1.
Proof.
  apply (two_passes Sample.by_name [Sample.alice1; Sample.alice2]
           [Sample.bob3; Sample.alice1] Sample.w0 [Sample.alice2]
           (print "Removed 1 duplicate(s) from 2 row(s)." Sample.w0) Sample.w0).
  vm_compute. reflexivity.
Defined.

(** ** The command line *)

(** With any number of arguments other than three the script prints how
    many it got and exits with the usage message; it looks at no path and
    writes no file. *)
Theorem wrong_argument_count (env : environment) (prog : string)
    (args : list string) (w : world) :
  List.length args ≠ 3%nat →
  command_line env prog args w
  = (SystemExit (USAGE_MESSAGE prog),
     World (stdout w
            ++ ["Incorrect number of arguments given ("
                +:+ pretty (Z.of_nat (List.length args)) +:+ "). Expected 3."])
           (written w)).
Proof.
  intros Hlen. destruct args as [|a1 [|a2 [|a3 [|a4 args]]]]; done.
Qed.

Lemma wrong_argument_count_witness :
  command_line SampleFiles.env "remove_duplicates.py" ["people.csv"; "spec.json"] Sample.w0
  = (SystemExit (USAGE_MESSAGE "remove_duplicates.py"),
     World (stdout Sample.w0
            ++ ["Incorrect number of arguments given ("
                +:+ pretty (Z.of_nat (List.length ["people.csv"; "spec.json"]))
                +:+ "). Expected 3."])
           (written Sample.w0)).
Proof.
  apply (wrong_argument_count SampleFiles.env "remove_duplicates.py"
           ["people.csv"; "spec.json"] Sample.w0).
  simpl. lia.
Defined.

(** With three arguments of which some path is not what it must be, the
    script prints one line for each violated condition, in the order data
    file, specification file, output directory, then exits with the usage
    message; nothing is read or written. *)
Theorem invalid_paths_reported (env : environment) (prog : string)
    (data_path spec_path output_path : string) (w : world) :
  is_file env data_path && is_file env spec_path && is_dir env output_path = false →
  command_line env prog [data_path; spec_path; output_path] w
  = (SystemExit (USAGE_MESSAGE prog),
     World (stdout w
            ++ (if is_file env data_path then []
                else [not_a_datafile_msg (path_str env data_path)])
            ++ (if is_file env spec_path then []
                else [not_a_specfile_msg (path_str env spec_path)])
            ++ (if is_dir env output_path then []
                else [not_a_directory_msg (path_str env output_path)]))
           (written w)).
Proof.
  unfold command_line, require, print.
  destruct (is_file env data_path), (is_file env spec_path), (is_dir env output_path);
    simpl; intros Hinvalid; try done;
    rewrite <-?app_assoc; reflexivity.
Qed.

Lemma invalid_paths_reported_witness :
  command_line SampleFiles.env "remove_duplicates.py"
    ["missing.csv"; "spec.json"; "nowhere"] Sample.w0
  = (SystemExit (USAGE_MESSAGE "remove_duplicates.py"),
     World (stdout Sample.w0
            ++ (if is_file SampleFiles.env "missing.csv" then []
                else [not_a_datafile_msg (path_str SampleFiles.env "missing.csv")])
            ++ (if is_file SampleFiles.env "spec.json" then []
                else [not_a_specfile_msg (path_str SampleFiles.env "spec.json")])
            ++ (if is_dir SampleFiles.env "nowhere" then []
                else [not_a_directory_msg (path_str SampleFiles.env "nowhere")]))
           (written Sample.w0)).
Proof.
  apply (invalid_paths_reported SampleFiles.env "remove_duplicates.py"
           "missing.csv" "spec.json" "nowhere" Sample.w0).
  vm_compute. reflexivity.
Defined.

(** Whatever the arguments, either no file is written and the script does
    not run to its end, or there are three arguments, the first two are
    files and the third a directory, [remove_duplicates] returns on the
    rows and the specification read from them, and the one file written
    holds the rows it returned. *)
Theorem writes_only_when_valid (env : environment) (prog : string)
    (args : list string) (w : world) (t : termination) (w' : world) :
  command_line env prog args w = (t, w') →
  (written w' = written w ∧ t ≠ Returned)
  ∨ ∃ data_path spec_path output_path results,
      args = [data_path; spec_path; output_path]
      ∧ is_file env data_path = true
      ∧ is_file env spec_path = true
      ∧ is_dir env output_path = true
      ∧ t = Returned
      ∧ (remove_duplicates (read_rows env data_path) (load_spec env spec_path) w).1
        = Ok results
      ∧ written w'
        = written w
          ++ [CsvFile output_path
                (path_stem env data_path +:+ "_duplicates_removed.csv") results].
Proof.
  destruct args as [|data_path [|spec_path [|output_path [|a4 args]]]];
    try (intros [= <- <-]; by left).
  unfold command_line, require.
  destruct (is_file env data_path) eqn:Hdata, (is_file env spec_path) eqn:Hspec,
    (is_dir env output_path) eqn:Hout; simpl;
    try (intros [= <- <-]; by left).
  unfold main, remove_duplicates.
  destruct (loop (load_spec env spec_path) (Dict.empty, 0) (read_rows env data_path))
    as [[tracked_rows row_count]|e] eqn:Hloop; intros [= <- <-].
  - right. exists data_path, spec_path, output_path, (Dict.values tracked_rows).
    split_and!; try done. unfold remove_duplicates. by rewrite Hloop.
  - by left.
Qed.

Lemma writes_only_when_valid_witness :
  (written (World ["Removed 1 duplicate(s) from 3 row(s)."]
              [CsvFile "out" "people_duplicates_removed.csv"
                 [Sample.alice2; Sample.bob3]])
   = written Sample.w0 ∧ Returned ≠ Returned)
  ∨ ∃ data_path spec_path output_path results,
      ["people.csv"; "spec.json"; "out"] = [data_path; spec_path; output_path]
      ∧ is_file SampleFiles.env data_path = true
      ∧ is_file SampleFiles.env spec_path = true
      ∧ is_dir SampleFiles.env output_path = true
      ∧ Returned = Returned
      ∧ (remove_duplicates (read_rows SampleFiles.env data_path)
           (load_spec SampleFiles.env spec_path) Sample.w0).1
        = Ok results
      ∧ written (World ["Removed 1 duplicate(s) from 3 row(s)."]
                   [CsvFile "out" "people_duplicates_removed.csv"
                      [Sample.alice2; Sample.bob3]])
        = written Sample.w0
          ++ [CsvFile output_path
                (path_stem SampleFiles.env data_path +:+ "_duplicates_removed.csv")
                results].
Proof.
  apply (writes_only_when_valid SampleFiles.env "remove_duplicates.py"
           ["people.csv"; "spec.json"; "out"] Sample.w0).
  vm_compute. reflexivity.
Defined.

(** ** Records of uneven length *)

Lemma resolver_ragged_Err (d : Descriptor) (e : exception) :
  get_value_hash_function_ragged d = Err e → get_value_hash_function d = Err e.
Proof.
  unfold get_value_hash_function_ragged, get_value_hash_function.
  destruct (d !! ATTRIBUTE_METHOD) as [method|]; [|by intros [= <-]].
  repeat case_decide; intros Hd; try discriminate Hd; by injection Hd as <-.
Qed.

Lemma resolver_ragged_Ok (d : Descriptor) (f : option string → attempt (option string)) :
  get_value_hash_function_ragged d = Ok f →
  (∃ method, d !! ATTRIBUTE_METHOD = Some method ∧ method ∈ recognised_methods)
  ∧ (∀ s, ∃ s', f (Some s) = Fine (Some s'))
  ∧ match f None with
    | Fine None => none_raises d = TypeError concatenate_none_msg
    | Fine (Some _) => False
    | Raise r => none_raises d = r
    end.
Proof.
  unfold get_value_hash_function_ragged, none_raises, recognised_methods.
  destruct (d !! ATTRIBUTE_METHOD) as [method|]; [|done].
  repeat case_decide; intros [= <-]; subst; simplify_eq/=;
    (split_and!; [eexists; split; [done|]; rewrite !elem_of_cons; auto
                 | intros s; by eexists | done]).
Qed.

Lemma resolver_ragged_total (d : Descriptor) (method : string) :
  d !! ATTRIBUTE_METHOD = Some method → method ∈ recognised_methods →
  is_Ok (get_value_hash_function_ragged d).
Proof.
  unfold get_value_hash_function_ragged, recognised_methods. intros -> Hmethod.
  repeat case_decide; try by eexists.
  rewrite !elem_of_cons, elem_of_nil in Hmethod. tauto.
Qed.

Section ragged.
Context (criteria : Criteria).
Implicit Types (row : RaggedRow) (rows source : list RaggedRow).
Implicit Types (vhfs fs : list (option string → attempt (option string))).

Lemma value_hash_functions_ragged_Ok vhfs :
  value_hash_functions_of_ragged criteria = Ok vhfs →
  Forall2 (resolved_for criteria) (Dict.keys criteria) vhfs.
Proof.
  unfold value_hash_functions_of_ragged. intros Hvhfs%mapM_Ok.
  eapply Forall2_impl; [exact Hvhfs|]. intros c f Hf. unfold Dict.getitem in Hf.
  destruct (Dict.get criteria c) as [d|] eqn:Hd; [|done]. by exists d.
Qed.

Lemma value_hash_functions_ragged_Err (e : exception) :
  value_hash_functions_of_ragged criteria = Err e →
  e = MissingAttribute
  ∨ ∃ method, (method ∉ recognised_methods) ∧ e = UnrecognizedMethod method.
Proof.
  unfold value_hash_functions_of_ragged.
  intros (cols & c & cols' & Hkeys & _ & Hc)%mapM_Err_elim.
  assert (is_Some (Dict.get criteria c)) as [d Hd].
  { apply dict_get_is_Some. rewrite Hkeys. apply elem_of_app. right. left. }
  unfold Dict.getitem in Hc. rewrite Hd in Hc. simpl in Hc.
  apply resolver_ragged_Err, get_value_hash_function_Err in Hc
    as [[_ ->]|(method & _ & ? & ->)]; eauto.
Qed.

(** The comprehension succeeds exactly on a valid specification. *)
Lemma value_hash_functions_ragged_valid :
  is_Ok (value_hash_functions_of_ragged criteria)
  ↔ ∀ column_key d, Dict.get criteria column_key = Some d →
      ∃ method, d !! ATTRIBUTE_METHOD = Some method ∧ method ∈ recognised_methods.
Proof.
  split.
  - intros [vhfs Hvhfs%value_hash_functions_ragged_Ok] c d Hc.
    assert (c ∈ Dict.keys criteria) as Hin by by apply dict_get_is_Some.
    apply list_elem_of_lookup in Hin as [i Hi].
    destruct (Forall2_lookup_l _ _ _ _ _ Hvhfs Hi) as (f & _ & d' & Hd' & Hf).
    assert (d' = d) as -> by congruence.
    by destruct (resolver_ragged_Ok _ _ Hf) as [? _].
  - intros Hvalid.
    destruct (value_hash_functions_of_ragged criteria) as [vhfs|e] eqn:Hvhfs; [by eexists|].
    unfold value_hash_functions_of_ragged in Hvhfs.
    apply mapM_Err_elim in Hvhfs as (cols & c & cols' & Hkeys & _ & Hc).
    assert (is_Some (Dict.get criteria c)) as [d Hd].
    { apply dict_get_is_Some. rewrite Hkeys. apply elem_of_app. right. left. }
    unfold Dict.getitem in Hc. rewrite Hd in Hc. simpl in Hc.
    destruct (Hvalid c d Hd) as (method & Hmethod & Hin).
    destruct (resolver_ragged_total d method Hmethod Hin) as [f Hf]. congruence.
Qed.

(** The loop of [track_row] on a row, by the first column that does not
    hold a string. *)
Lemma hash_ragged_strings row vhfs (i : nat) (cols : list string) (hashed_key : string) :
  Forall (has_string row) cols →
  Forall2 (resolved_for criteria) cols (drop i vhfs) →
  is_Fine (hash_columns_ragged row vhfs i cols hashed_key).
Proof.
  intros Hcols. revert i hashed_key.
  induction Hcols as [|c cols [s Hc] _ IH]; intros i hashed_key Hfs; [by eexists|].
  inversion Hfs as [|? f ? fs (d & _ & Hf) Hrest Heq1 Heq2]; subst.
  symmetry in Heq2. apply drop_cons_inv in Heq2 as [Hi Hdrop].
  simpl. rewrite Hc, Hi. destruct (resolver_ragged_Ok _ _ Hf) as (_ & Hstr & _).
  destruct (Hstr s) as [s' ->]. apply IH. by rewrite Hdrop.
Qed.

Lemma hash_ragged_first_bad row vhfs (i : nat) (cols : list string) (c : string)
    (cols' : list string) (hashed_key : string) :
  Forall (has_string row) cols →
  Forall2 (resolved_for criteria) (cols ++ c :: cols') (drop i vhfs) →
  ¬ has_string row c →
  (row !! c = None
   ∧ hash_columns_ragged row vhfs i (cols ++ c :: cols') hashed_key
     = Raise (Known (MissingColumn c)))
  ∨ (row !! c = Some None
     ∧ ∃ d, Dict.get criteria c = Some d
            ∧ hash_columns_ragged row vhfs i (cols ++ c :: cols') hashed_key
              = Raise (none_raises d)).
Proof.
  intros Hcols. revert i hashed_key.
  induction Hcols as [|c0 cols [s Hc0] _ IH]; intros i hashed_key Hfs Hbad.
  - rewrite app_nil_l in *.
    inversion Hfs as [|? f ? fs (d & Hd & Hf) Hrest Heq1 Heq2]; subst.
    symmetry in Heq2. apply drop_cons_inv in Heq2 as [Hi Hdrop].
    simpl. destruct (row !! c) as [[s|]|] eqn:Hc.
    + destruct Hbad. by exists s.
    + right. split; [done|]. exists d. split; [done|]. rewrite Hi.
      destruct (resolver_ragged_Ok _ _ Hf) as (_ & _ & Hnone).
      destruct (f None) as [[s|]|r]; [done | by rewrite Hnone | by rewrite Hnone].
    + by left.
  - rewrite <-app_comm_cons in *.
    inversion Hfs as [|? f ? fs (d & _ & Hf) Hrest Heq1 Heq2]; subst.
    symmetry in Heq2. apply drop_cons_inv in Heq2 as [Hi Hdrop].
    simpl. rewrite Hc0, Hi. destruct (resolver_ragged_Ok _ _ Hf) as (_ & Hstr & _).
    destruct (Hstr s) as [s' ->]. apply IH; [by rewrite Hdrop | done].
Qed.

(** The composite key of a row is built exactly when the specification is
    valid and the row holds a string in every column of it. *)
Lemma composite_key_ragged_Fine row :
  is_Fine (composite_key_ragged criteria row)
  ↔ is_Ok (value_hash_functions_of_ragged criteria)
    ∧ Forall (has_string row) (Dict.keys criteria).
Proof.
  unfold composite_key_ragged.
  destruct (value_hash_functions_of_ragged criteria) as [vhfs|e] eqn:Hvhfs.
  - apply value_hash_functions_ragged_Ok in Hvhfs. split.
    + intros Hfine. split; [by eexists|].
      destruct (Forall_or_first (has_string row) (Dict.keys criteria))
        as [Hall|(cols & c & cols' & Hkeys & Hcols & Hc)]; [done|].
      rewrite Hkeys in Hvhfs, Hfine. destruct Hfine as [k Hk].
      destruct (hash_ragged_first_bad row vhfs 0 cols c cols' "" Hcols Hvhfs Hc)
        as [[_ Hraise]|(_ & d & _ & Hraise)]; congruence.
    + intros [_ Hall]. by apply hash_ragged_strings.
  - split; [by intros [? ?] | by intros [[? ?] _]].
Qed.

Lemma composite_key_ragged_Raise row (r : raised) :
  composite_key_ragged criteria row = Raise r →
  r = Known MissingAttribute
  ∨ (∃ method, (method ∉ recognised_methods) ∧ r = Known (UnrecognizedMethod method))
  ∨ (∃ column_key, column_key ∈ Dict.keys criteria
                   ∧ row !! column_key = None ∧ r = Known (MissingColumn column_key))
  ∨ (∃ column_key d, column_key ∈ Dict.keys criteria
                     ∧ row !! column_key = Some None
                     ∧ Dict.get criteria column_key = Some d ∧ r = none_raises d).
Proof.
  unfold composite_key_ragged.
  destruct (value_hash_functions_of_ragged criteria) as [vhfs|e] eqn:Hvhfs.
  - apply value_hash_functions_ragged_Ok in Hvhfs. intros Hraise.
    destruct (Forall_or_first (has_string row) (Dict.keys criteria))
      as [Hall|(cols & c & cols' & Hkeys & Hcols & Hc)].
    + destruct (hash_ragged_strings row vhfs 0 _ "" Hall Hvhfs) as [k Hk]. congruence.
    + assert (c ∈ Dict.keys criteria) as Hin
        by (rewrite Hkeys; apply elem_of_app; right; left).
      rewrite Hkeys in Hvhfs, Hraise.
      destruct (hash_ragged_first_bad row vhfs 0 cols c cols' "" Hcols Hvhfs Hc)
        as [[Hnone Hr]|(Hnone & d & Hd & Hr)].
      * right. right. left. exists c. split_and!; [done..|congruence].
      * right. right. right. exists c, d. split_and!; [done..|congruence].
  - intros [= <-].
    apply value_hash_functions_ragged_Err in Hvhfs as [->|(method & ? & ->)]; eauto.
Qed.

Lemma loop_body_ragged_key (st : Dict.t RaggedRow * Z) row :
  loop_body_ragged criteria st row
  = match composite_key_ragged criteria row with
    | Fine k => Fine (Dict.set st.1 k row, st.2 + 1)
    | Raise r => Raise r
    end.
Proof.
  unfold loop_body_ragged, composite_key_ragged, track_row_ragged.
  destruct (value_hash_functions_of_ragged criteria) as [vhfs|e]; [|done].
  by destruct (hash_columns_ragged row vhfs 0 (Dict.keys criteria) "").
Qed.

Lemma loop_ragged_Fine rows (st : Dict.t RaggedRow * Z) :
  is_Fine (loop_ragged criteria st rows)
  ↔ Forall (λ row, is_Fine (composite_key_ragged criteria row)) rows.
Proof.
  revert st. induction rows as [|row rows IH]; intros st; simpl.
  - split; [constructor | by eexists].
  - rewrite loop_body_ragged_key, Forall_cons.
    destruct (composite_key_ragged criteria row) as [k|r].
    + rewrite IH. split; [by split; [eexists|] | by intros [_ ?]].
    + split; [by intros [? ?] | by intros [[? ?] _]].
Qed.

Lemma loop_ragged_Raise rows (st : Dict.t RaggedRow * Z) (r : raised) :
  loop_ragged criteria st rows = Raise r →
  ∃ before row after,
    rows = before ++ row :: after
    ∧ Forall (λ row, is_Fine (composite_key_ragged criteria row)) before
    ∧ composite_key_ragged criteria row = Raise r.
Proof.
  revert st. induction rows as [|row rows IH]; intros st; [done|].
  simpl. rewrite loop_body_ragged_key.
  destruct (composite_key_ragged criteria row) as [k|r'] eqn:Hrow.
  - intros (before & row' & after & -> & Hbefore & Hrow')%IH.
    exists (row :: before), row', after. split_and!; [done| |done].
    constructor; [by eexists | done].
  - intros [= ->]. exists [], row, rows. split_and!; [done | constructor | done].
Qed.

Lemma loop_ragged_stops (before : list RaggedRow) row (after : list RaggedRow)
    (st : Dict.t RaggedRow * Z) (r : raised) :
  Forall (λ row, is_Fine (composite_key_ragged criteria row)) before →
  composite_key_ragged criteria row = Raise r →
  loop_ragged criteria st (before ++ row :: after) = Raise r.
Proof.
  intros Hbefore Hrow. revert st.
  induction Hbefore as [|row0 before [k Hk] _ IH]; intros st; simpl.
  - by rewrite loop_body_ragged_key, Hrow.
  - rewrite loop_body_ragged_key, Hk. apply IH.
Qed.
End ragged.

Lemma remove_duplicates_ragged_Raise criteria (source : list RaggedRow)
    (w : world) (r : raised) (w' : world) :
  remove_duplicates_ragged source criteria w = (Raise r, w') →
  w' = w ∧ loop_ragged criteria (Dict.empty, 0) source = Raise r.
Proof.
  unfold remove_duplicates_ragged.
  destruct (loop_ragged criteria (Dict.empty, 0) source) as [[t n]|r']; [done|].
  by intros [= -> <-].
Qed.

Lemma none_raises_cases (d : Descriptor) :
  none_raises d = TypeError concatenate_none_msg
  ∨ none_raises d = AttributeError no_lower_msg.
Proof. unfold none_raises. case_decide; auto. Qed.

(** When [remove_duplicates] raises on the rows of a data file, a row was
    read, nothing has been printed, and the exception is one of five: the
    [KeyError] for a descriptor without "method", the [ValueError] for an
    unknown method name, the [KeyError] naming a column of the specification
    that a row lacks, or, for a row whose record was too short to give a
    column of the specification a value, the [TypeError] of the
    concatenation or the [AttributeError] of [None.lower()].  The
    [IndexError] that [track_row] can raise is never raised. *)
Theorem failures_are_typed (criteria : Criteria) (source : list RaggedRow)
    (w : world) (r : raised) (w' : world) :
  remove_duplicates_ragged source criteria w = (Raise r, w') →
  w' = w
  ∧ source ≠ []
  ∧ (r = Known MissingAttribute
     ∨ (∃ method, (method ∉ recognised_methods) ∧ r = Known (UnrecognizedMethod method))
     ∨ (∃ row column_key,
          row ∈ source ∧ column_key ∈ Dict.keys criteria
          ∧ row !! column_key = None ∧ r = Known (MissingColumn column_key))
     ∨ (∃ row column_key,
          row ∈ source ∧ column_key ∈ Dict.keys criteria
          ∧ row !! column_key = Some None
          ∧ (r = TypeError concatenate_none_msg ∨ r = AttributeError no_lower_msg)))
  ∧ ∀ msg, r ≠ Known (IndexError msg).
Proof.
  intros [-> Hloop]%remove_duplicates_ragged_Raise.
  apply loop_ragged_Raise in Hloop as (before & row & after & -> & _ & Hrow).
  assert (row ∈ before ++ row :: after) as Hin by (apply elem_of_app; right; left).
  apply composite_key_ragged_Raise in Hrow
    as [->|[(method & ? & ->)|[(c & ? & ? & ->)|(c & d & ? & ? & _ & ->)]]].
  - split_and!; [done | by destruct before | auto | done].
  - split_and!; [done | by destruct before | eauto | done].
  - split_and!; [done | by destruct before | | done].
    right. right. left. by exists row, c.
  - split_and!; [done | by destruct before | |].
    + right. right. right. exists row, c. split_and!; [done..|].
      apply none_raises_cases.
    + intros msg. by destruct (none_raises_cases d) as [-> | ->].
Qed.

Lemma failures_are_typed_witness :
  Sample.w0 = Sample.w0
  ∧ [SampleRagged.alice1; SampleRagged.short4; SampleRagged.bob3] ≠ []
  ∧ (AttributeError no_lower_msg = Known MissingAttribute
     ∨ (∃ method, (method ∉ recognised_methods)
                  ∧ AttributeError no_lower_msg = Known (UnrecognizedMethod method))
     ∨ (∃ row column_key,
          row ∈ [SampleRagged.alice1; SampleRagged.short4; SampleRagged.bob3]
          ∧ column_key ∈ Dict.keys Sample.by_name
          ∧ row !! column_key = None
          ∧ AttributeError no_lower_msg = Known (MissingColumn column_key))
     ∨ (∃ row column_key,
          row ∈ [SampleRagged.alice1; SampleRagged.short4; SampleRagged.bob3]
          ∧ column_key ∈ Dict.keys Sample.by_name
          ∧ row !! column_key = Some None
          ∧ (AttributeError no_lower_msg = TypeError concatenate_none_msg
             ∨ AttributeError no_lower_msg = AttributeError no_lower_msg)))
  ∧ ∀ msg, AttributeError no_lower_msg ≠ Known (IndexError msg).
Proof.
  apply (failures_are_typed Sample.by_name
           [SampleRagged.alice1; SampleRagged.short4; SampleRagged.bob3] Sample.w0).
  vm_compute. reflexivity.
Defined.

(** [remove_duplicates] returns on the rows of a data file exactly when
    there is no row, or every descriptor of the specification has a "method"
    that is one of the three method names and every row holds a string in
    every column of the specification. *)
Theorem succeeds_iff (criteria : Criteria) (source : list RaggedRow) (w : world) :
  is_Fine (remove_duplicates_ragged source criteria w).1
  ↔ source = []
    ∨ ((∀ column_key d, Dict.get criteria column_key = Some d →
          ∃ method, d !! ATTRIBUTE_METHOD = Some method ∧ method ∈ recognised_methods)
       ∧ Forall (λ row, Forall (has_string row) (Dict.keys criteria)) source).
Proof.
  assert (is_Fine (remove_duplicates_ragged source criteria w).1
          ↔ is_Fine (loop_ragged criteria (Dict.empty, 0) source)) as ->.
  { unfold remove_duplicates_ragged.
    destruct (loop_ragged criteria (Dict.empty, 0) source) as [[t n]|r]; simpl.
    - split; intros _; by eexists.
    - split; by intros [? ?]. }
  rewrite loop_ragged_Fine, <-value_hash_functions_ragged_valid. split.
  - intros Hrows. destruct source as [|row source]; [by left|]. right.
    split.
    + inversion Hrows as [|? ? Hrow _]; subst.
      by apply composite_key_ragged_Fine in Hrow as [? _].
    + eapply Forall_impl; [exact Hrows|]. intros row' Hrow'.
      by apply composite_key_ragged_Fine in Hrow' as [_ ?].
  - intros [->|[Hvalid Hrows]]; [constructor|].
    eapply Forall_impl; [exact Hrows|]. intros row Hrow.
    by apply composite_key_ragged_Fine.
Qed.

(** A record too short to give a column of the specification a value does
    not count as lacking the column.  Under a valid specification, at the
    first row that does not hold a string in every column, if the first
    such column is there with the value [None], the run stops with
    [TypeError] when the column's method is "exact" and with
    [AttributeError] otherwise; nothing is printed. *)
Theorem short_record_raises (criteria : Criteria)
    (before : list RaggedRow) (row : RaggedRow) (after : list RaggedRow)
    (cols : list string) (column_key : string) (cols' : list string)
    (d : Descriptor) (w : world) :
  is_Ok (value_hash_functions_of_ragged criteria) →
  Forall (λ row, Forall (has_string row) (Dict.keys criteria)) before →
  Dict.keys criteria = cols ++ column_key :: cols' →
  Forall (has_string row) cols →
  row !! column_key = Some None →
  Dict.get criteria column_key = Some d →
  remove_duplicates_ragged (before ++ row :: after) criteria w
  = (Raise (if decide (d !! ATTRIBUTE_METHOD = Some "exact")
            then TypeError concatenate_none_msg
            else AttributeError no_lower_msg), w).
Proof.
  intros Hvalid Hbefore Hkeys Hcols Hnone Hd.
  unfold remove_duplicates_ragged.
  rewrite (loop_ragged_stops criteria before row after _ (none_raises d)); [done| |].
  - eapply Forall_impl; [exact Hbefore|]. intros row' Hrow'.
    by apply composite_key_ragged_Fine.
  - unfold composite_key_ragged. destruct Hvalid as [vhfs Hvhfs]. rewrite Hvhfs.
    apply value_hash_functions_ragged_Ok in Hvhfs. rewrite Hkeys in *.
    destruct (hash_ragged_first_bad criteria row vhfs 0 cols column_key cols' ""
                Hcols Hvhfs) as [[? _]|(_ & d' & Hd' & ->)].
    + intros [s ?]. congruence.
    + congruence.
    + congruence.
Qed.

Lemma short_record_raises_witness :
  remove_duplicates_ragged
    ([SampleRagged.alice1] ++ SampleRagged.short4 :: [SampleRagged.bob3])
    SampleRagged.by_name_exact Sample.w0
  = (Raise (if decide (({[ "method" := "exact" ]} : Descriptor) !! ATTRIBUTE_METHOD
                       = Some "exact")
            then TypeError concatenate_none_msg
            else AttributeError no_lower_msg), Sample.w0).
Proof.
  apply (short_record_raises SampleRagged.by_name_exact
           [SampleRagged.alice1] SampleRagged.short4 [SampleRagged.bob3]
           [] "name" [] {[ "method" := "exact" ]} Sample.w0).
  - eexists. vm_compute. reflexivity.
  - repeat constructor. eexists. vm_compute. reflexivity.
  - reflexivity.
  - constructor.
  - vm_compute. reflexivity.
  - vm_compute. reflexivity.
Defined.

(** *** Rows whose fields are all strings

    On such rows the functions above do what the functions on [Row] do. *)

Lemma resolver_agrees (d : Descriptor) :
  match get_value_hash_function d, get_value_hash_function_ragged d with
  | Ok f, Ok f' => agree f f'
  | Err e, Err e' => e = e'
  | _, _ => False
  end.
Proof.
  unfold get_value_hash_function, get_value_hash_function_ragged.
  destruct (d !! ATTRIBUTE_METHOD) as [method|]; [|reflexivity].
  repeat case_decide; simpl; try reflexivity; by intros s.
Qed.

Lemma comprehension_agrees (criteria : Criteria) (l : list string) :
  match mapM (λ c, Dict.getitem criteria c ≫= get_value_hash_function) l,
        mapM (λ c, Dict.getitem criteria c ≫= get_value_hash_function_ragged) l with
  | Ok vhfs, Ok vhfs' => Forall2 agree vhfs vhfs'
  | Err e, Err e' => e = e'
  | _, _ => False
  end.
Proof.
  induction l as [|c l IH]; [constructor|].
  rewrite !mapM_cons.
  destruct (Dict.getitem criteria c) as [d|e0]; simpl; [|reflexivity].
  pose proof (resolver_agrees d) as Hd.
  destruct (get_value_hash_function d) as [f|e],
    (get_value_hash_function_ragged d) as [f'|e']; simpl; try done.
  destruct (mapM _ l) as [vhfs|e], (mapM _ l) as [vhfs'|e']; simpl; try done.
  by constructor.
Qed.

Lemma hash_columns_agrees (row : Row) (vhfs : list (string → string))
    (vhfs' : list (option string → attempt (option string)))
    (i : nat) (cols : list string) (hashed_key : string) :
  Forall2 agree vhfs vhfs' →
  hash_columns_ragged (fields row) vhfs' i cols hashed_key
  = lift_result id (hash_columns row vhfs i cols hashed_key).
Proof.
  intros Hvhfs. revert i hashed_key.
  induction cols as [|c cols IH]; intros i hashed_key; [done|].
  simpl. unfold fields. rewrite lookup_fmap.
  destruct (row !! c) as [value|]; simpl; [|done].
  destruct (vhfs !! i) as [f|] eqn:Hf.
  - destruct (Forall2_lookup_l _ _ _ _ _ Hvhfs Hf) as (f' & -> & Hagree).
    rewrite Hagree. apply IH.
  - assert (vhfs' !! i = None) as ->; [|done].
    apply lookup_ge_None. apply lookup_ge_None in Hf.
    by rewrite <-(Forall2_length _ _ _ Hvhfs).
Qed.

Lemma dict_set_fmap {V W} (g : V → W) (d : Dict.t V) (k : string) (v : V) :
  Dict.set (prod_map id g <$> d) k (g v) = prod_map id g <$> Dict.set d k v.
Proof.
  induction d as [|[k' v'] d IH]; [done|].
  rewrite fmap_cons. simpl. case_decide; [done|]. by rewrite IH, fmap_cons.
Qed.

Lemma loop_agrees (criteria : Criteria) (rows : list Row) (t : Dict.t Row) (n : Z) :
  loop_ragged criteria (prod_map id fields <$> t, n) (fields <$> rows)
  = lift_result (λ st, (prod_map id fields <$> st.1, st.2)) (loop criteria (t, n) rows).
Proof.
  revert t n. induction rows as [|row rows IH]; intros t n; [done|].
  rewrite fmap_cons. simpl.
  unfold loop_body_ragged, loop_body, value_hash_functions_of_ragged,
    value_hash_functions_of, track_row_ragged, track_row.
  pose proof (comprehension_agrees criteria (Dict.keys criteria)) as Hvhfs.
  destruct (mapM _ (Dict.keys criteria)) as [vhfs|e],
    (mapM _ (Dict.keys criteria)) as [vhfs'|e']; simpl; try done; [|by subst].
  rewrite (hash_columns_agrees row vhfs vhfs' 0 _ "" Hvhfs).
  destruct (hash_columns row vhfs 0 (Dict.keys criteria) "") as [k|e]; simpl; [|done].
  rewrite dict_set_fmap. apply IH.
Qed.

(** On a data file whose records all have the fields of the header, the
    engine on rows with optional fields returns, prints and raises what the
    engine on rows of strings does. *)
Lemma remove_duplicates_agrees (criteria : Criteria) (source : list Row) (w : world) :
  remove_duplicates_ragged (fields <$> source) criteria w
  = (lift_result (fmap fields) (remove_duplicates source criteria w).1,
     (remove_duplicates source criteria w).2).
Proof.
  unfold remove_duplicates_ragged, remove_duplicates.
  change (Dict.empty (V:=RaggedRow)) with (prod_map id fields <$> Dict.empty (V:=Row)).
  rewrite loop_agrees.
  destruct (loop criteria (Dict.empty, 0) source) as [[t n]|e]; simpl; [|done].
  unfold summary, Dict.len, Dict.values. rewrite length_fmap.
  do 2 f_equal. rewrite <-!list_fmap_compose. by apply list_fmap_ext.
Qed.
